(** * DALL-E mini inference notebook: orchestration model

    A shallow embedding of [tools/inference/inference_pipeline.ipynb].
    The notebook is glue code around three external models; the models,
    the JAX key functions and NumPy's [argsort] are the fields of the
    class [Env], and the calls the claims speak of (key split, generator,
    decoder, scorer) are recorded in an output trace next to what the
    notebook displays and prints.

    Arrays are modelled the way NumPy stores them: a shape and the
    row-major list of elements.  Python exceptions are an error outcome.
    Pixel values and scores are rationals (every finite float is one);
    the float32 product is the rounding of the exact product.  Where a
    NaN or an infinity matters, [float32] adds them to the rationals. *)

From Stdlib Require Import ZArith QArith Qround Qminmax List Lia Arith Bool.
From Stdlib Require String.
Import String.StringSyntax.
Delimit Scope string_scope with string.
From Stdlib Require Import Permutation Sorted.
Import ListNotations.
Close Scope Q_scope.

(** ** Python exceptions *)

Inductive pyerr : Type := IndexError | TypeError | ValueError.

Inductive outcome (A : Type) : Type :=
| Ok (a : A)
| Raised (e : pyerr).
Arguments Ok {A} a.
Arguments Raised {A} e.

(** ** Lists cut into consecutive blocks *)

Definition block {A : Type} (n i : nat) (l : list A) : list A :=
  firstn n (skipn (i * n) l).

Definition blocks {A : Type} (k n : nat) (l : list A) : list (list A) :=
  map (fun i => block n i l) (seq 0 k).

(** [l[start::step]] for a positive step; a zero step is refused before
    this is reached. *)
Fixpoint every_nth {A : Type} (fuel step : nat) (l : list A) : list A :=
  match fuel with
  | 0 => []
  | S fuel' =>
      match l with
      | [] => []
      | x :: _ => x :: every_nth fuel' step (skipn step l)
      end
  end.

Definition slice_from_step {A : Type} (start step : nat) (l : list A)
  : list A :=
  every_nth (length l) step (skipn start l).

(** [l[i]] on a Python list. *)
Definition list_getitem {A : Type} (l : list A) (i : nat) : outcome A :=
  match nth_error l i with
  | Some x => Ok x
  | None => Raised IndexError
  end.

Fixpoint sequence {A : Type} (l : list (outcome A)) : outcome (list A) :=
  match l with
  | [] => Ok []
  | Raised e :: _ => Raised e
  | Ok a :: t =>
      match sequence t with
      | Ok r => Ok (a :: r)
      | Raised e => Raised e
      end
  end.

(** ** N-dimensional arrays: shape and row-major data *)

Module Nd.

Record ndarray (A : Type) : Type := mk { shape : list nat; data : list A }.
Arguments mk {A} shape data.
Arguments shape {A} n.
Arguments data {A} n.

Definition numel (s : list nat) : nat := fold_right Nat.mul 1 s.

Definition wf {A : Type} (a : ndarray A) : Prop :=
  length (data a) = numel (shape a).

(** Elementwise operation ([a.clip(..)], [a * 255], a dtype cast). *)
Definition map {A B : Type} (f : A -> B) (a : ndarray A) : ndarray B :=
  mk (shape a) (List.map f (data a)).

(** The sub-arrays along the leading axis ([for x in a], [pmap]'s view of
    an argument).  A 0-d array cannot be iterated. *)
Definition unstack {A : Type} (a : ndarray A) : outcome (list (ndarray A)) :=
  match shape a with
  | [] => Raised TypeError
  | k :: s => Ok (List.map (mk s) (blocks k (numel s) (data a)))
  end.

Definition shape_eqb (s t : list nat) : bool :=
  if list_eq_dec Nat.eq_dec s t then true else false.

(** A new leading axis over equally shaped arrays ([np.asarray] of a list
    of arrays, the result of [pmap]). *)
Definition stack {A : Type} (l : list (ndarray A)) : outcome (ndarray A) :=
  match l with
  | [] => Ok (mk [0] [])
  | a :: t =>
      if forallb (fun b => shape_eqb (shape b) (shape a)) t
      then Ok (mk (length l :: shape a) (concat (List.map data l)))
      else Raised ValueError
  end.

(** [a.reshape((-1,) + tail)]: the data is untouched; the free dimension
    is the element count divided by the size of [tail]. *)
Definition reshape_m1 {A : Type} (tail : list nat) (a : ndarray A)
  : outcome (ndarray A) :=
  let m := numel tail in
  let n := length (data a) in
  if (m =? 0) then Raised ValueError
  else if (n mod m =? 0) then Ok (mk (n / m :: tail) (data a))
  else Raised ValueError.

(** [a[..., 1:]]: drop the first element along the last axis. *)
Definition drop_first_last_axis {A : Type} (a : ndarray A)
  : outcome (ndarray A) :=
  match rev (shape a) with
  | [] => Raised IndexError
  | len :: rinit =>
      let lead := rev rinit in
      Ok (mk (lead ++ [len - 1])
             (concat (List.map (skipn 1) (blocks (numel lead) len (data a)))))
  end.

(** The rows along the last axis, in order. *)
Definition rows {A : Type} (a : ndarray A) : list (list A) :=
  match rev (shape a) with
  | [] => []
  | len :: rinit => blocks (numel (rev rinit)) len (data a)
  end.

(** [a[:, i::p, i]]: on the second axis every [p]-th entry from [i] on, on
    the third axis entry [i]. *)
Definition slice_stride_col {A : Type} (i p : nat) (a : ndarray A)
  : outcome (ndarray A) :=
  match shape a with
  | d :: m :: c :: rest =>
      if p =? 0 then Raised ValueError
      else if i <? c then
        let r := numel rest in
        let picked :=
          List.map (fun dev =>
                 List.map (block r i)
                     (slice_from_step i p (blocks m (c * r) dev)))
              (blocks d (m * (c * r)) (data a)) in
        Ok (mk (d :: length (slice_from_step i p (seq 0 m)) :: rest)
               (concat (concat picked)))
      else Raised IndexError
  | _ => Raised IndexError
  end.

(** [a.squeeze()]: axes of length one disappear. *)
Definition squeeze {A : Type} (a : ndarray A) : ndarray A :=
  mk (filter (fun n => negb (n =? 1)) (shape a)) (data a).

(** [a[i]] for an integer [i]. *)
Definition getitem {A : Type} (i : nat) (a : ndarray A)
  : outcome (ndarray A) :=
  match shape a with
  | [] => Raised IndexError
  | k :: s =>
      if i <? k then Ok (mk s (block (numel s) i (data a)))
      else Raised IndexError
  end.

(** [a.argsort()]: along the last axis; on a scalar, such as an entry of
    a vector, the answer is the one-element array [[0]]. *)
Definition argsort_last (sort : list Q -> list nat) (a : ndarray Q)
  : ndarray nat :=
  match shape a with
  | [] => mk [1] [0]
  | _ => mk (shape a) (concat (List.map sort (rows a)))
  end.

(** [a[::-1]]: the leading axis backwards. *)
Definition reverse {A : Type} (a : ndarray A) : outcome (ndarray A) :=
  match shape a with
  | [] => Raised IndexError
  | k :: s => Ok (mk (k :: s) (concat (rev (blocks k (numel s) (data a)))))
  end.

(** The value of a 0-d array; what list indexing and [format] accept. *)
Definition item {A : Type} (a : ndarray A) : outcome A :=
  match shape a, data a with
  | [], [x] => Ok x
  | _, _ => Raised TypeError
  end.

End Nd.

(** ** Pixel arithmetic *)

Definition clip (lo hi x : Q) : Q := Qmin (Qmax x lo) hi.

(** Truncation towards zero, as a C cast from float to integer does. *)
Definition Qtrunc (x : Q) : Z := Z.quot (Qnum x) (Zpos (Qden x)).

(** [dtype=np.uint8]: truncate, keep the low eight bits. *)
Definition to_uint8 (x : Q) : Z := (Qtrunc x mod 256)%Z.

(** Float32 values as the arrays hold them: the rationals above stand for
    the finite ones; a decoder may also produce the special values. *)
Inductive float32 : Type :=
| FNaN
| FInf (negative : bool)
| FFin (q : Q).

(** The largest finite float32, [(2 - 2^-23) * 2^127]. *)
Definition float32_max : Q :=
  inject_Z 340282346638528859811704183484516925440.

(** [x.clip(lo, hi)], that is [minimum(maximum(x, lo), hi)]: a NaN stays
    a NaN, an infinity lands on a bound. *)
Definition fclip (lo hi : Q) (x : float32) : float32 :=
  match x with
  | FNaN => FNaN
  | FInf true => FFin (Qmin lo hi)
  | FInf false => FFin hi
  | FFin q => FFin (clip lo hi q)
  end.

(** [dtype=np.uint8] on a float32: a finite value is truncated and
    reduced; a NaN or an infinity has no defined byte. *)
Definition f_to_uint8 (x : float32) : option Z :=
  match x with
  | FFin q => Some (to_uint8 q)
  | _ => None
  end.

(** A PIL image built from an 8-bit array. *)
Definition Image : Type := Nd.ndarray Z.
Definition fromarray (a : Nd.ndarray Z) : Image := a.

(** What [print] receives, before formatting. *)
Inductive message : Type :=
| MsgPrompts (ps : list String.string)
| MsgPrompt (p : String.string)
| MsgScore (s : Q)
| MsgBlank.

(** ** Round count *)

(** [max(n_predictions // jax.device_count(), 1)] on Python integers. *)
Definition n_rounds (n_predictions device_count : Z) : Z :=
  Z.max (n_predictions / device_count) 1.

(** [range(k)] *)
Definition range (k : Z) : list Z := map Z.of_nat (seq 0 (Z.to_nat k)).

(** The ceiling of [n / d] the specification speaks of. *)
Definition ceil_div (n d : Z) : Z := ((n + d - 1) / d)%Z.

(** ** The external libraries *)

Class Env : Type := {
  (** JAX keys, model parameters, the tokenizer's output *)
  Key : Type;
  Params : Type;
  VqParams : Type;
  ClipParams : Type;
  TokBatch : Type;
  (** [jax.device_count()] on a single host *)
  device_count : nat;
  (** [jax.random.split(key)]: two new keys *)
  split : Key -> Key * Key;
  (** [shard_prng_key(key)]: one key per device *)
  shard_prng_key : Key -> list Key;
  (** [processor(prompts)] *)
  processor : list String.string -> TokBatch;
  (** the [sequences] of [model.generate] on one device, from the
      tokenized prompts, [prng_key], [params], [top_k], [top_p],
      [temperature] and [condition_scale] *)
  generate :
    TokBatch -> Key -> Params ->
    option Z -> option Q -> option Q -> option Q -> Nd.ndarray Z;
  (** [vqgan.decode_code(indices, params)] on one device *)
  decode_code : Nd.ndarray Z -> VqParams -> Nd.ndarray Q;
  (** rounding of an exact product to float32 *)
  rnd : Q -> Q;
  (** [p_clip(shard(clip_processor(text, images, ..).data), clip_params)]:
      per device the [logits_per_image] of its share of the images *)
  clip_logits :
    list String.string -> list Image -> list ClipParams -> Nd.ndarray Q;
  (** NumPy's [argsort] of a one-dimensional array *)
  argsort : list Q -> list nat
}.

Section Notebook.

Context {E : Env}.

Definition fmul (x y : Q) : Q := rnd (x * y).

(** [x * k] on a float32 [x]: a NaN stays a NaN, an infinity keeps or
    flips its sign, a finite value gives the rounded product, or an
    infinity when that exceeds the largest float32. *)
Definition fmul32 (x : float32) (k : Q) : float32 :=
  match x with
  | FNaN => FNaN
  | FInf negative =>
      match (k ?= 0)%Q with
      | Eq => FNaN
      | Gt => FInf negative
      | Lt => FInf (negb negative)
      end
  | FFin q =>
      let y := fmul q k in
      if Qle_bool y float32_max
      then if Qle_bool (- float32_max) y then FFin y else FInf true
      else FInf false
  end.

(** ** Trace and state *)

Inductive event : Type :=
| EvSplit (k : Key)
| EvGenerate (keys : list Key) (sequences : Nd.ndarray Z)
| EvDecode (indices : Nd.ndarray Z)
| EvClip (text : list String.string) (imgs : list Image)
| EvDisplay (img : Image)
| EvPrint (m : message).

(** The notebook's globals that change ([key], [images]) and its output. *)
Record state : Type := mkState {
  key : Key;
  images : list Image;
  out : list event
}.

Definition M (A : Type) : Type := state -> state * outcome A.

Definition ret {A : Type} (a : A) : M A := fun s => (s, Ok a).

Definition bind {A B : Type} (m : M A) (f : A -> M B) : M B :=
  fun s =>
    match m s with
    | (s', Ok a) => f a s'
    | (s', Raised e) => (s', Raised e)
    end.

Definition lift {A : Type} (o : outcome A) : M A := fun s => (s, o).

Definition emit (ev : event) : M unit :=
  fun s => (mkState (key s) (images s) (out s ++ [ev]), Ok tt).

Definition get_key : M Key := fun s => (s, Ok (key s)).

Definition set_key (k : Key) : M unit :=
  fun s => (mkState k (images s) (out s), Ok tt).

Definition get_images : M (list Image) := fun s => (s, Ok (images s)).

Definition set_images (l : list Image) : M unit :=
  fun s => (mkState (key s) l (out s), Ok tt).

Definition append_image (img : Image) : M unit :=
  fun s => (mkState (key s) (images s ++ [img]) (out s), Ok tt).

Notation "x <- m ; f" := (bind m (fun x => f))
  (at level 61, m at next level, right associativity).
Notation "m ;; f" := (bind m (fun _ => f))
  (at level 61, right associativity).

Fixpoint for_ {X : Type} (l : list X) (body : X -> M unit) : M unit :=
  match l with
  | [] => ret tt
  | x :: t => body x ;; for_ t body
  end.

(** ** External calls, each leaving its mark in the trace *)

Definition jax_random_split (k : Key) : M (Key * Key) :=
  emit (EvSplit k) ;; ret (split k).

(** [replicate(x)]: one copy per device. *)
Definition replicate {X : Type} (x : X) : list X := repeat x device_count.

(** [pmap] over three arguments: the leading axes must agree. *)
Definition p_generate (tokenized_prompt : list TokBatch) (keys : list Key)
    (params : list Params) (top_k : option Z) (top_p temperature
    condition_scale : option Q) : M (Nd.ndarray Z) :=
  if (length tokenized_prompt =? length keys)
     && (length keys =? length params)
  then
    r <- lift (Nd.stack
           (map (fun x => generate (fst (fst x)) (snd (fst x)) (snd x)
                            top_k top_p temperature condition_scale)
                (combine (combine tokenized_prompt keys) params))) ;
    emit (EvGenerate keys r) ;; ret r
  else lift (Raised ValueError).

Definition p_decode (indices : Nd.ndarray Z) (params : list VqParams)
  : M (Nd.ndarray Q) :=
  emit (EvDecode indices) ;;
  per_device <- lift (Nd.unstack indices) ;
  if (length per_device =? length params)
  then lift (Nd.stack (map (fun x => decode_code (fst x) (snd x))
                           (combine per_device params)))
  else lift (Raised ValueError).

(** ** The generation cell *)

Definition to_image (decoded_img : Nd.ndarray Q) : Image :=
  fromarray (Nd.map to_uint8 (Nd.map (fun x => fmul x 255) decoded_img)).

Definition show_image (decoded_img : Nd.ndarray Q) : M unit :=
  let img := to_image decoded_img in
  append_image img ;; emit (EvDisplay img) ;; emit (EvPrint MsgBlank).

Definition round_body (tokenized_prompt : list TokBatch)
    (params : list Params) (vqgan_params : list VqParams)
    (gen_top_k : option Z) (gen_top_p temperature cond_scale : option Q)
    (i : Z) : M unit :=
  k <- get_key ;
  ks <- jax_random_split k ;
  set_key (fst ks) ;;
  encoded_images <- p_generate tokenized_prompt (shard_prng_key (snd ks))
                      params gen_top_k gen_top_p temperature cond_scale ;
  encoded_images <- lift (Nd.drop_first_last_axis encoded_images) ;
  decoded_images <- p_decode encoded_images vqgan_params ;
  decoded_images <- lift (Nd.reshape_m1 [256; 256; 3]
                            (Nd.map (clip 0 1) decoded_images)) ;
  imgs <- lift (Nd.unstack decoded_images) ;
  for_ imgs show_image.

Definition generate_cell (prompts : list String.string)
    (tokenized_prompt : list TokBatch) (params : list Params)
    (vqgan_params : list VqParams) (n_predictions : Z)
    (gen_top_k : option Z) (gen_top_p temperature cond_scale : option Q)
  : M unit :=
  emit (EvPrint (MsgPrompts prompts)) ;;
  set_images [] ;;
  for_ (range (n_rounds n_predictions (Z.of_nat device_count)))
       (round_body tokenized_prompt params vqgan_params
                   gen_top_k gen_top_p temperature cond_scale).

(** ** The scoring cells *)

Definition p_clip (text : list String.string) (imgs : list Image)
    (clip_params : list ClipParams) : M (Nd.ndarray Q) :=
  emit (EvClip text imgs) ;; ret (clip_logits text imgs clip_params).

(** [logits[:, i::p, i] for i in range(p)], stacked and squeezed. *)
Definition organize_scores (p : nat) (logits : Nd.ndarray Q)
  : outcome (Nd.ndarray Q) :=
  match sequence (map (fun i => Nd.slice_stride_col i p logits) (seq 0 p))
  with
  | Raised e => Raised e
  | Ok per_prompt =>
      match Nd.stack per_prompt with
      | Raised e => Raised e
      | Ok a => Ok (Nd.squeeze a)
      end
  end.

Definition score_cell (prompts : list String.string)
    (clip_params : list ClipParams) : M (Nd.ndarray Q) :=
  imgs <- get_images ;
  logits <- p_clip (concat (repeat prompts device_count)) imgs clip_params ;
  lift (organize_scores (length prompts) logits).

Definition show_ranked (p i : nat) (logits_i : Nd.ndarray Q)
    (idx : Nd.ndarray nat) : M unit :=
  imgs <- get_images ;
  pos <- lift (Nd.item (Nd.map (fun x => x * p + i) idx)) ;
  img <- lift (list_getitem imgs pos) ;
  emit (EvDisplay img) ;;
  j <- lift (Nd.item idx) ;
  entry <- lift (Nd.getitem j logits_i) ;
  score <- lift (Nd.item entry) ;
  emit (EvPrint (MsgScore score)).

Definition display_prompt (p : nat) (logits : Nd.ndarray Q)
    (ip : nat * String.string) : M unit :=
  let (i, prompt) := ip in
  emit (EvPrint (MsgPrompt prompt)) ;;
  logits_i <- lift (Nd.getitem i logits) ;
  order <- lift (Nd.reverse (Nd.argsort_last argsort logits_i)) ;
  idxs <- lift (Nd.unstack order) ;
  for_ idxs (show_ranked p i logits_i) ;;
  emit (EvPrint MsgBlank).

(** [enumerate(prompts)] *)
Definition enumerate {A : Type} (l : list A) : list (nat * A) :=
  combine (seq 0 (length l)) l.

Definition display_cell (prompts : list String.string)
    (logits : Nd.ndarray Q) : M unit :=
  for_ (enumerate prompts) (display_prompt (length prompts) logits).

(** The ranking cells one after the other. *)
Definition rank_cells (prompts : list String.string)
    (clip_params : list ClipParams) : M unit :=
  logits <- score_cell prompts clip_params ;
  display_cell prompts logits.

(** ** The ranking, described *)

(** The logit of the image at flat position [pos] against text column
    [i], in a logits array with [p] columns: devices hold consecutive
    shares of the images, so position and row number agree. *)
Definition logit (logits : Nd.ndarray Q) (p pos i : nat) : Q :=
  nth (pos * p + i) (Nd.data logits) 0%Q.

(** The scores of the [b] images at positions [i], [i + p], ... *)
Definition prompt_scores (logits : Nd.ndarray Q) (p b i : nat) : list Q :=
  map (fun k => logit logits p (k * p + i) i) (seq 0 b).

(** Their ranks, best first. *)
Definition ranking (logits : Nd.ndarray Q) (p b i : nat) : list nat :=
  rev (argsort (prompt_scores logits p b i)).

Definition blank_image : Image := Nd.mk [] [].

Definition ranked_trace (imgs : list Image) (logits : Nd.ndarray Q)
    (p b : nat) (ip : nat * String.string) : list event :=
  EvPrint (MsgPrompt (snd ip))
  :: flat_map (fun k =>
                 [EvDisplay (nth (k * p + fst ip) imgs blank_image);
                  EvPrint (MsgScore (logit logits p (k * p + fst ip)
                                       (fst ip)))])
              (ranking logits p b (fst ip))
  ++ [EvPrint MsgBlank].

(** ** The notebook from the prompts on *)

(** [tokenized_prompt = replicate(processor(prompts))], the replicated
    parameters, then the generation cell. *)
Definition generation (prompts : list String.string) (model_params : Params)
    (vqgan_params : VqParams) (n_predictions : Z)
    (gen_top_k : option Z) (gen_top_p temperature cond_scale : option Q)
  : M unit :=
  generate_cell prompts (replicate (processor prompts))
    (replicate model_params) (replicate vqgan_params) n_predictions
    gen_top_k gen_top_p temperature cond_scale.

(** How often the loop body runs. *)
Definition n_iter (n_predictions : Z) : nat :=
  length (range (n_rounds n_predictions (Z.of_nat device_count))).

(** ** Reading a run *)

(** What a computation adds to the trace when started in [s]. *)
Definition emitted {A : Type} (m : M A) (s : state) : list event :=
  skipn (length (out s)) (out (fst (m s))).

Definition is_generate (ev : event) : bool :=
  match ev with EvGenerate _ _ => true | _ => false end.

Definition is_split (ev : event) : bool :=
  match ev with EvSplit _ => true | _ => false end.

Definition is_decode (ev : event) : bool :=
  match ev with EvDecode _ => true | _ => false end.

(** A round of the loop is one call of the generator. *)
Definition rounds_performed (tr : list event) : nat :=
  length (filter is_generate tr).

(** The keys that were split and the key shards the generator received,
    in order. *)
Definition key_uses (tr : list event) : list (Key + list Key) :=
  flat_map (fun ev =>
              match ev with
              | EvSplit k => [inl k]
              | EvGenerate ks _ => [inr ks]
              | _ => []
              end) tr.

Definition displayed (tr : list event) : list Image :=
  flat_map (fun ev => match ev with EvDisplay img => [img] | _ => [] end) tr.

(** ** What the external functions are assumed to return *)

Definition shard_ok : Prop :=
  forall k, length (shard_prng_key k) = device_count.

(** One sequence per prompt, [max_length] tokens each. *)
Definition generate_ok (max_length : nat) : Prop :=
  forall prompts k ps top_k top_p temperature cs,
    let g := generate (processor prompts) k ps top_k top_p temperature cs in
    Nd.shape g = [length prompts; max_length] /\ Nd.wf g.

(** One 256 x 256 RGB pixel array per sequence. *)
Definition decode_ok : Prop :=
  forall a vp n len,
    Nd.shape a = [n; len] ->
    Nd.shape (decode_code a vp) = [n; 256; 256; 3] /\
    Nd.wf (decode_code a vp).

(** Rounding is monotone and leaves 0 and 255, which float32 holds
    exactly, alone. *)
Definition rnd_ok : Prop :=
  (forall x y, (x <= y)%Q -> (rnd x <= rnd y)%Q) /\
  (rnd 0 == 0)%Q /\ (rnd 255 == 255)%Q.

(** Per device, one row of logits per image of its share and one column
    per text of its share. *)
Definition clip_ok : Prop :=
  forall text imgs cp,
    Nd.shape (clip_logits text imgs cp) =
      [device_count; length imgs / device_count;
       length text / device_count] /\
    Nd.wf (clip_logits text imgs cp).

(** [argsort] returns the positions in ascending order of the values. *)
Definition argsort_ok : Prop :=
  forall l,
    Permutation (argsort l) (seq 0 (length l)) /\
    StronglySorted (fun a b => (nth a l 0 <= nth b l 0)%Q) (argsort l).

(** ** A round, described *)

Section Round.

Variable prompts : list String.string.
Variable model_params : Params.
Variable vqgan_params : VqParams.
Variable gen_top_k : option Z.
Variables gen_top_p temperature cond_scale : option Q.
Variable max_length : nat.

(** The running key at the start of each of [n] rounds. *)
Fixpoint running_keys (n : nat) (k : Key) : list Key :=
  match n with
  | 0 => []
  | S n' => k :: running_keys n' (fst (split k))
  end.

Fixpoint final_key (n : nat) (k : Key) : Key :=
  match n with
  | 0 => k
  | S n' => final_key n' (fst (split k))
  end.

Definition round_keys (k : Key) : list Key := shard_prng_key (snd (split k)).

(** The generator's sequences of the round, all devices stacked. *)
Definition round_sequences (k : Key) : Nd.ndarray Z :=
  Nd.mk [device_count; length prompts; max_length]
    (concat (map (fun kk => Nd.data (generate (processor prompts) kk
                               model_params gen_top_k gen_top_p
                               temperature cond_scale))
                 (round_keys k))).

(** The sequences the decoder receives. *)
Definition round_encoded (k : Key) : Nd.ndarray Z :=
  Nd.mk [device_count; length prompts; max_length - 1]
    (concat (map (skipn 1)
               (blocks (device_count * length prompts) max_length
                       (Nd.data (round_sequences k))))).

(** The decoder's pixel values of the round, device after device. *)
Definition round_decoded (k : Key) : list Q :=
  concat (map (fun d => Nd.data (decode_code
                          (Nd.mk [length prompts; max_length - 1] d)
                          vqgan_params))
              (blocks device_count (length prompts * (max_length - 1))
                      (Nd.data (round_encoded k)))).

Definition image_size : nat := Nd.numel [256; 256; 3].

Definition round_images (k : Key) : list Image :=
  map (fun i => to_image (Nd.mk [256; 256; 3]
                   (block image_size i (map (clip 0 1) (round_decoded k)))))
      (seq 0 (device_count * length prompts)).

Definition round_trace (k : Key) : list event :=
  [EvSplit k; EvGenerate (round_keys k) (round_sequences k);
   EvDecode (round_encoded k)]
  ++ flat_map (fun img => [EvDisplay img; EvPrint MsgBlank]) (round_images k).

(** The sequences one device hands to the decoder: what the generator
    returned for its key shard, every row without its first token. *)
Definition device_encoded (kk : Key) : Nd.ndarray Z :=
  Nd.mk [length prompts; max_length - 1]
    (concat (map (skipn 1)
               (blocks (length prompts) max_length
                  (Nd.data (generate (processor prompts) kk model_params
                              gen_top_k gen_top_p temperature
                              cond_scale))))).

(** The image of prompt [i] from the device whose key shard is [kk]. *)
Definition device_image (kk : Key) (i : nat) : Image :=
  to_image (Nd.mk [256; 256; 3]
              (block image_size i
                 (map (clip 0 1)
                    (Nd.data (decode_code (device_encoded kk)
                                vqgan_params))))).

End Round.

(** A computation that only reports: whatever it prints, and whether or
    not it raises, it leaves [key] and [images] as they were. *)
Definition reporting {A : Type} (m : M A) : Prop :=
  forall s, key (fst (m s)) = key s /\ images (fst (m s)) = images s.

(** A complete 256 x 256 RGB image of bytes. *)
Definition rgb_image (img : Image) : Prop :=
  Nd.shape img = [256; 256; 3] /\ Nd.wf img /\
  Forall (fun b => (0 <= b <= 255)%Z) (Nd.data img).

End Notebook.

(** ** A small instance of the external libraries *)

Fixpoint insert_idx (l : list Q) (i : nat) (sorted : list nat) : list nat :=
  match sorted with
  | [] => [i]
  | j :: t =>
      if Qle_bool (nth i l 0%Q) (nth j l 0%Q) then i :: sorted
      else j :: insert_idx l i t
  end.

Definition insertion_argsort (l : list Q) : list nat :=
  fold_right (insert_idx l) [] (seq 0 (length l)).

(** Keys are integers, each prompt yields three tokens, a decoded pixel
    is an eighth of the first token kept, rounding is to 1/1024. *)
Definition toy (d : nat) : Env := {|
  Key := Z;
  Params := unit;
  VqParams := unit;
  ClipParams := unit;
  TokBatch := nat;
  device_count := d;
  split := fun k => (2 * k + 1, 2 * k + 2)%Z;
  shard_prng_key := fun k => map (fun j => (k * 100 + Z.of_nat j)%Z) (seq 0 d);
  processor := fun ps => length ps;
  generate := fun n k _ _ _ _ _ =>
    Nd.mk [n; 3]
      (concat (map (fun i => [0; k; k + Z.of_nat i]%Z) (seq 0 n)));
  decode_code := fun a _ =>
    Nd.mk [hd 0 (Nd.shape a); 256; 256; 3]
      (flat_map (fun row => repeat (Qmake (hd 0%Z row) 8) image_size)
                (Nd.rows a));
  rnd := fun q => Qmake (Qfloor (q * 1024)) 1024;
  clip_logits := fun text imgs _ =>
    let m := length imgs / d in
    let c := length text / d in
    Nd.mk [d; m; c]
      (map (fun t => Qmake (Z.of_nat ((t * 7) mod 5)) 2)
           (seq 0 (d * (m * c))));
  argsort := insertion_argsort
|}.

Definition toy_prompts : list String.string :=
  ["sunset over a lake"%string; "the Eiffel tower"%string].

Definition toy_start (d : nat) : @state (toy d) :=
  @mkState (toy d) 7%Z [] [].

(** A labelled stand-in for an image, and a state holding [n] of them. *)
Definition placeholder (n : nat) : Image := Nd.mk [1] [Z.of_nat n].

Definition toy_gallery (d n : nat) : @state (toy d) :=
  @mkState (toy d) 7%Z (map placeholder (seq 0 n)) [].

(** The loop body and the generation cell on [d] devices. *)
Definition toy_body (d : nat) : Z -> M (E := toy d) unit :=
  round_body (E := toy d)
    (replicate (E := toy d) (processor (Env := toy d) toy_prompts))
    (replicate (E := toy d) tt) (replicate (E := toy d) tt)
    None None None (Some 10%Q).

Definition toy_generation (d : nat) (prompts : list String.string) (n : Z)
  : M (E := toy d) unit :=
  generation (E := toy d) prompts tt tt n None None None (Some 10%Q).

(** * Proofs *)

(** ** Blocks of a list *)

Lemma blocks_S {A : Type} (k n : nat) (l : list A) :
  blocks (S k) n l = firstn n l :: blocks k n (skipn n l).
Proof.
  unfold blocks. cbn [seq map]. f_equal.
  rewrite <- seq_shift, map_map. apply map_ext. intros i.
  unfold block. rewrite skipn_skipn. f_equal. f_equal. lia.
Qed.

Lemma blocks_length {A : Type} (k n : nat) (l : list A) :
  length (blocks k n l) = k.
Proof. unfold blocks. now rewrite length_map, length_seq. Qed.

Lemma blocks_app {A : Type} (k n : nat) (b rest : list A) :
  length b = n -> blocks (S k) n (b ++ rest) = b :: blocks k n rest.
Proof.
  intros Hb. rewrite blocks_S. f_equal.
  - rewrite firstn_app, Hb, Nat.sub_diag, firstn_O, app_nil_r.
    rewrite <- Hb. apply firstn_all.
  - rewrite skipn_app, Hb, Nat.sub_diag. cbn [skipn].
    rewrite <- Hb, skipn_all. reflexivity.
Qed.

Lemma blocks_concat {A : Type} (n : nat) (bs : list (list A)) :
  Forall (fun b => length b = n) bs ->
  blocks (length bs) n (concat bs) = bs.
Proof.
  induction 1 as [|b bs Hb _ IH]; [reflexivity|].
  cbn [length concat]. rewrite blocks_app by assumption. now rewrite IH.
Qed.

Lemma concat_blocks {A : Type} (k n : nat) (l : list A) :
  length l = k * n -> concat (blocks k n l) = l.
Proof.
  revert l. induction k as [|k IH]; intros l Hl.
  - destruct l; [reflexivity | discriminate].
  - rewrite blocks_S. cbn [concat]. rewrite IH.
    + apply firstn_skipn.
    + rewrite length_skipn. lia.
Qed.

Lemma blocks_Forall_length {A : Type} (k n : nat) (l : list A) :
  length l = k * n -> Forall (fun b => length b = n) (blocks k n l).
Proof.
  revert l. induction k as [|k IH]; intros l Hl.
  - constructor.
  - rewrite blocks_S. constructor.
    + rewrite length_firstn. lia.
    + apply IH. rewrite length_skipn. lia.
Qed.

Lemma nth_blocks {A : Type} (k n i : nat) (l : list A) :
  i < k -> nth i (blocks k n l) [] = block n i l.
Proof.
  intros Hi. unfold blocks.
  rewrite (nth_indep _ [] (block n 0 l)) by (now rewrite length_map, length_seq).
  rewrite (map_nth (fun j => block n j l)). now rewrite seq_nth.
Qed.

Lemma length_concat_const {A : Type} (n : nat) (bs : list (list A)) :
  Forall (fun b => length b = n) bs -> length (concat bs) = length bs * n.
Proof.
  induction 1 as [|b bs Hb _ IH]; [reflexivity|].
  cbn [concat length]. rewrite length_app. lia.
Qed.

(** ** Stacking and unstacking *)

Lemma shape_eqb_refl (s : list nat) : Nd.shape_eqb s s = true.
Proof. unfold Nd.shape_eqb. destruct (list_eq_dec Nat.eq_dec s s); congruence. Qed.

Lemma stack_same_shape {A : Type} (l : list (Nd.ndarray A)) (s : list nat) :
  l <> [] ->
  Forall (fun a => Nd.shape a = s) l ->
  Nd.stack l = Ok (Nd.mk (length l :: s) (concat (map Nd.data l))).
Proof.
  intros Hne Hall. destruct l as [|a t]; [congruence|].
  inversion Hall as [|? ? Ha Ht]; subst. unfold Nd.stack.
  replace (forallb (fun b => Nd.shape_eqb (Nd.shape b) (Nd.shape a)) t)
    with true; [reflexivity|].
  symmetry. apply forallb_forall. intros b Hb.
  rewrite Forall_forall in Ht. rewrite (Ht b Hb). apply shape_eqb_refl.
Qed.

Lemma unstack_mk {A : Type} (k : nat) (s : list nat) (d : list A) :
  Nd.unstack (Nd.mk (k :: s) d) =
  Ok (map (Nd.mk s) (blocks k (Nd.numel s) d)).
Proof. reflexivity. Qed.

Lemma map_combine_repeat {A B C D : Type} (f : A -> B -> C -> D)
    (a : A) (c : C) (l : list B) :
  map (fun x => f (fst (fst x)) (snd (fst x)) (snd x))
      (combine (combine (repeat a (length l)) l) (repeat c (length l)))
  = map (fun b => f a b c) l.
Proof. induction l as [|b l IH]; cbn; [reflexivity | now rewrite IH]. Qed.

Lemma map_combine_repeat_r {A B C : Type} (f : A -> B -> C)
    (b : B) (l : list A) :
  map (fun x => f (fst x) (snd x)) (combine l (repeat b (length l)))
  = map (fun a => f a b) l.
Proof. induction l as [|a l IH]; cbn; [reflexivity | now rewrite IH]. Qed.

Lemma image_size_pos : image_size <> 0.
Proof. unfold image_size. cbn [Nd.numel fold_right]. lia. Qed.

Lemma drop_first_3d {A : Type} (d p len : nat) (l : list A) :
  Nd.drop_first_last_axis (Nd.mk [d; p; len] l)
  = Ok (Nd.mk [d; p; len - 1]
          (concat (map (skipn 1) (blocks (d * p) len l)))).
Proof.
  unfold Nd.drop_first_last_axis. cbn [Nd.shape Nd.data rev app].
  replace (Nd.numel [d; p]) with (d * p) by (cbn; lia). reflexivity.
Qed.

Lemma reshape_images {A : Type} (k : nat) (sh : list nat) (l : list A) :
  length l = k * image_size ->
  Nd.reshape_m1 [256; 256; 3] (Nd.mk sh l) = Ok (Nd.mk [k; 256; 256; 3] l).
Proof.
  intros Hl. unfold Nd.reshape_m1.
  change (Nd.numel [256; 256; 3]) with image_size.
  cbn [Nd.data]. rewrite Hl.
  pose proof image_size_pos as Hpos.
  destruct (Nat.eqb_spec image_size 0) as [H0|_]; [contradiction|].
  rewrite Nat.Div0.mod_mul, Nat.eqb_refl, Nat.div_mul by assumption.
  reflexivity.
Qed.

Lemma numel_images (n : nat) : Nd.numel [n; 256; 256; 3] = n * image_size.
Proof. reflexivity. Qed.

(** ** Round arithmetic *)

Example rounds_8_on_4 : n_rounds 8 4 = 2%Z /\ ceil_div 8 4 = 2%Z.
Proof. split; reflexivity. Qed.

Example rounds_9_on_4 : n_rounds 9 4 = 2%Z /\ ceil_div 9 4 = 3%Z.
Proof. split; reflexivity. Qed.

Example rounds_0_on_4 : n_rounds 0 4 = 1%Z.
Proof. reflexivity. Qed.

(** [ceil_div n d] is the least [k] with [n <= k * d]. *)
Lemma ceil_div_spec (n d : Z) :
  (0 < d)%Z ->
  ((ceil_div n d - 1) * d < n <= ceil_div n d * d)%Z.
Proof.
  intros Hd. unfold ceil_div.
  pose proof (Z.div_mod (n + d - 1) d ltac:(lia)) as Hdm.
  pose proof (Z.mod_pos_bound (n + d - 1) d Hd) as Hb.
  nia.
Qed.

Lemma ceil_div_floor (n d : Z) :
  (0 < d)%Z ->
  ceil_div n d = (n / d + (if (n mod d =? 0)%Z then 0 else 1))%Z.
Proof.
  intros Hd. unfold ceil_div.
  pose proof (Z.div_mod n d ltac:(lia)) as Hdm.
  pose proof (Z.mod_pos_bound n d Hd) as Hb.
  destruct (Z.eqb_spec (n mod d) 0) as [H0|H0].
  - symmetry. rewrite Z.add_0_r. apply (Z.div_unique _ _ _ (d - 1)); lia.
  - symmetry. apply (Z.div_unique _ _ _ (n mod d - 1)); lia.
Qed.

Lemma n_rounds_ceil_iff (n d : Z) :
  (1 <= n)%Z -> (1 <= d)%Z ->
  (n_rounds n d = ceil_div n d <-> (d | n) \/ n < d)%Z.
Proof.
  intros Hn Hd. unfold n_rounds. rewrite ceil_div_floor by lia.
  pose proof (Z.div_mod n d ltac:(lia)) as Hdm.
  pose proof (Z.mod_pos_bound n d ltac:(lia)) as Hb.
  assert (Hq : (0 <= n / d)%Z) by (apply Z.div_pos; lia).
  rewrite <- (Z.mod_divide n d) by lia.
  destruct (Z.eqb_spec (n mod d) 0) as [H0|H0].
  - split; [now left|]. intros _.
    assert (n / d <> 0)%Z by nia. lia.
  - split.
    + intros H. right.
      assert (n / d = 0)%Z by lia. nia.
    + intros [H|H]; [contradiction|].
      rewrite (Z.div_small n d) by lia. reflexivity.
Qed.

Lemma n_rounds_exact (n d : Z) :
  (1 <= n)%Z -> (1 <= d)%Z -> (d | n)%Z -> (n_rounds n d * d = n)%Z.
Proof.
  intros Hn Hd [q Hq]. unfold n_rounds. subst n.
  rewrite Z.div_mul by lia. nia.
Qed.

Lemma n_rounds_floor_multiple (n d : Z) :
  (1 <= d)%Z -> (n_rounds n d * d = Z.max (n - n mod d) d)%Z.
Proof.
  intros Hd. unfold n_rounds.
  pose proof (Z.div_mod n d ltac:(lia)) as Hdm.
  pose proof (Z.mod_pos_bound n d ltac:(lia)) as Hb.
  destruct (Z.max_spec (n / d) 1) as [[H1 ->]|[H1 ->]];
  destruct (Z.max_spec (n - n mod d) d) as [[H2 ->]|[H2 ->]]; nia.
Qed.

(** ** Clipping and truncation, described without the code's words *)






(** ** Running the generation cell *)

Section Generation.

Context {E : Env}.

Variable max_length : nat.
Hypothesis devices : 1 <= device_count.
Hypothesis shards : shard_ok.
Hypothesis sequences : generate_ok max_length.
Hypothesis decodes : decode_ok.

Variable prompts : list String.string.
Variable model_params : Params.
Variable vqgan_params : VqParams.
Variable gen_top_k : option Z.
Variables gen_top_p temperature cond_scale : option Q.

Lemma p_generate_run (keys : list Key) (s : state) :
  length keys = device_count ->
  let g := Nd.mk [device_count; length prompts; max_length]
             (concat (map (fun kk => Nd.data (generate (processor prompts) kk
                              model_params gen_top_k gen_top_p temperature
                              cond_scale)) keys)) in
  p_generate (replicate (processor prompts)) keys (replicate model_params)
    gen_top_k gen_top_p temperature cond_scale s
  = (mkState (key s) (images s) (out s ++ [EvGenerate keys g]), Ok g).
Proof.
  intros Hk g. unfold p_generate, replicate.
  rewrite !repeat_length, Hk, Nat.eqb_refl. cbn [andb].
  rewrite <- Hk.
  rewrite (map_combine_repeat
             (fun t kk ps => generate t kk ps gen_top_k gen_top_p
                               temperature cond_scale)).
  rewrite (stack_same_shape _ [length prompts; max_length]).
  - rewrite length_map, map_map. unfold bind, lift, emit, ret. cbn.
    subst g. rewrite Hk. reflexivity.
  - destruct keys; [cbn in Hk; lia | discriminate].
  - apply Forall_forall. intros a Ha. apply in_map_iff in Ha.
    destruct Ha as [kk [<- _]]. apply sequences.
Qed.

Lemma p_decode_run (len : nat) (d : list Z) (s : state) :
  let per := blocks device_count (length prompts * len) d in
  let r := Nd.mk [device_count; length prompts; 256; 256; 3]
             (concat (map (fun b => Nd.data (decode_code
                              (Nd.mk [length prompts; len] b) vqgan_params))
                          per)) in
  p_decode (Nd.mk [device_count; length prompts; len] d)
           (replicate vqgan_params) s
  = (mkState (key s) (images s)
       (out s ++ [EvDecode (Nd.mk [device_count; length prompts; len] d)]),
     Ok r).
Proof.
  intros per r. unfold p_decode, bind, emit, lift. cbn [fst snd].
  rewrite unstack_mk.
  replace (Nd.numel [length prompts; len]) with (length prompts * len)
    by (cbn; lia).
  fold per. unfold replicate.
  rewrite length_map, repeat_length.
  assert (Hper : length per = device_count) by apply blocks_length.
  rewrite Hper, Nat.eqb_refl.
  replace (repeat vqgan_params device_count)
    with (repeat vqgan_params
            (length (map (Nd.mk [length prompts; len]) per)))
    by (now rewrite length_map, Hper).
  rewrite (map_combine_repeat_r (fun a vp => decode_code a vp)).
  rewrite (stack_same_shape _ [length prompts; 256; 256; 3]).
  - rewrite !length_map, !map_map, Hper. reflexivity.
  - destruct per; [cbn in Hper; lia | discriminate].
  - apply Forall_forall. intros a Ha. apply in_map_iff in Ha.
    destruct Ha as [x [<- Hx]]. apply in_map_iff in Hx.
    destruct Hx as [b [<- _]].
    apply (decodes _ vqgan_params (length prompts) len). reflexivity.
Qed.

Lemma for_show_image (imgs : list (Nd.ndarray Q)) (s : state) :
  for_ imgs show_image s
  = (mkState (key s) (images s ++ map to_image imgs)
       (out s ++ flat_map (fun a => [EvDisplay (to_image a);
                                     EvPrint MsgBlank]) imgs),
     Ok tt).
Proof.
  revert s. induction imgs as [|a imgs IH]; intros s.
  - cbn. rewrite !app_nil_r. now destruct s.
  - cbn [for_]. unfold bind at 1. unfold show_image at 1.
    unfold bind, append_image, emit. cbn [key images out].
    rewrite IH. cbn [key images out map flat_map].
    rewrite <- !app_assoc. reflexivity.
Qed.

Local Abbreviation rimages :=
  (round_images prompts model_params vqgan_params gen_top_k gen_top_p
     temperature cond_scale max_length).
Local Abbreviation rtrace :=
  (round_trace prompts model_params vqgan_params gen_top_k gen_top_p
     temperature cond_scale max_length).
Local Abbreviation body :=
  (round_body (replicate (processor prompts)) (replicate model_params)
     (replicate vqgan_params) gen_top_k gen_top_p temperature cond_scale).

Lemma round_body_run (i : Z) (s : state) :
  body i s
  = (mkState (fst (split (key s))) (images s ++ rimages (key s))
       (out s ++ rtrace (key s)),
     Ok tt).
Proof.
  unfold round_body.
  unfold bind at 1. unfold get_key.
  unfold bind at 1. unfold jax_random_split, bind at 1, emit, ret.
  unfold bind at 1. unfold set_key. cbn [key images out].
  unfold bind at 1. rewrite p_generate_run by apply shards.
  cbn [key images out].
  unfold bind at 1. unfold lift at 1. rewrite drop_first_3d.
  unfold bind at 1. rewrite p_decode_run. cbn [key images out].
  unfold bind at 1. unfold lift at 1. unfold Nd.map at 1.
  cbn [Nd.shape Nd.data].
  rewrite (reshape_images (device_count * length prompts)).
  2:{ rewrite length_map.
      rewrite (length_concat_const (length prompts * image_size)).
      - rewrite length_map, blocks_length. lia.
      - apply Forall_forall. intros x Hx. apply in_map_iff in Hx.
        destruct Hx as [b [<- _]].
        destruct (decodes (Nd.mk [length prompts; max_length - 1] b)
                    vqgan_params (length prompts) (max_length - 1)
                    eq_refl) as [Hsh Hwf].
        unfold Nd.wf in Hwf. rewrite Hwf, Hsh. apply numel_images. }
  unfold bind at 1. unfold lift at 1. rewrite unstack_mk.
  change (Nd.numel [256; 256; 3]) with image_size.
  rewrite for_show_image. cbn [key images out].
  assert (Himgs :
    map to_image
      (map (Nd.mk [256; 256; 3])
         (blocks (device_count * length prompts) image_size
            (map (clip 0 1) (round_decoded prompts model_params vqgan_params
               gen_top_k gen_top_p temperature cond_scale max_length
               (key s)))))
    = rimages (key s)).
  { unfold round_images, blocks. now rewrite !map_map. }
  f_equal. f_equal.
  - f_equal. exact Himgs.
  - unfold round_trace. rewrite <- Himgs, <- !app_assoc. cbn [app].
    do 4 f_equal. rewrite !flat_map_concat_map, !map_map. reflexivity.
Qed.

Lemma rounds_run (l : list Z) (s : state) :
  for_ l body s
  = (mkState (final_key (length l) (key s))
       (images s ++ concat (map rimages (running_keys (length l) (key s))))
       (out s ++ concat (map rtrace (running_keys (length l) (key s)))),
     Ok tt).
Proof.
  revert s. induction l as [|i l IH]; intros s.
  - cbn. rewrite !app_nil_r. now destruct s.
  - cbn [for_]. unfold bind at 1. rewrite round_body_run, IH.
    cbn [key images out length final_key running_keys map concat].
    rewrite <- !app_assoc. reflexivity.
Qed.

Lemma range_length (k : Z) : length (range k) = Z.to_nat k.
Proof. unfold range. now rewrite length_map, length_seq. Qed.

Lemma n_iter_eq (n_predictions : Z) :
  n_iter n_predictions
  = Z.to_nat (Z.max (n_predictions / Z.of_nat device_count) 1).
Proof. unfold n_iter. now rewrite range_length. Qed.

Lemma generation_run (n_predictions : Z) (s : state) :
  let r := n_iter n_predictions in
  generation prompts model_params vqgan_params n_predictions gen_top_k
    gen_top_p temperature cond_scale s
  = (mkState (final_key r (key s))
       (concat (map rimages (running_keys r (key s))))
       (out s ++ EvPrint (MsgPrompts prompts)
              :: concat (map rtrace (running_keys r (key s)))),
     Ok tt).
Proof.
  intros r. unfold generation, generate_cell.
  unfold bind at 1. unfold emit at 1.
  unfold bind at 1. unfold set_images at 1. cbn [key images out].
  rewrite rounds_run. cbn [key images out app].
  fold (n_iter n_predictions). fold r.
  rewrite <- app_assoc. reflexivity.
Qed.

Local Abbreviation gen n :=
  (generation prompts model_params vqgan_params n gen_top_k
     gen_top_p temperature cond_scale).

(** ** What the trace of a run contains *)

Lemma emitted_eq {A : Type} (m : M A) (s : state) (tr : list event) :
  out (fst (m s)) = out s ++ tr -> emitted m s = tr.
Proof.
  intros H. unfold emitted. rewrite H, skipn_app, skipn_all, Nat.sub_diag.
  reflexivity.
Qed.

Lemma emitted_round (i : Z) (s : state) : emitted (body i) s = rtrace (key s).
Proof. apply emitted_eq. now rewrite round_body_run. Qed.

Lemma emitted_generation (n : Z) (s : state) :
  emitted (gen n) s
  = EvPrint (MsgPrompts prompts)
      :: concat (map rtrace (running_keys (n_iter n) (key s))).
Proof. apply emitted_eq. now rewrite generation_run. Qed.

Lemma filter_shown (f : event -> bool) (imgs : list Image) :
  (forall img, f (EvDisplay img) = false) ->
  f (EvPrint MsgBlank) = false ->
  filter f (flat_map (fun img => [EvDisplay img; EvPrint MsgBlank]) imgs) = [].
Proof.
  intros Hd Hp. induction imgs as [|img imgs IH]; [reflexivity|].
  cbn [flat_map app filter]. now rewrite Hd, Hp.
Qed.

Lemma round_trace_generate (k : Key) :
  filter is_generate (rtrace k)
  = [EvGenerate (round_keys k)
       (round_sequences prompts model_params gen_top_k gen_top_p
          temperature cond_scale max_length k)].
Proof.
  unfold round_trace. rewrite filter_app, filter_shown by reflexivity.
  reflexivity.
Qed.

Lemma round_trace_split (k : Key) : filter is_split (rtrace k) = [EvSplit k].
Proof.
  unfold round_trace. rewrite filter_app, filter_shown by reflexivity.
  reflexivity.
Qed.

Lemma key_uses_shown (imgs : list Image) :
  key_uses (flat_map (fun img => [EvDisplay img; EvPrint MsgBlank]) imgs) = [].
Proof. induction imgs as [|img imgs IH]; [reflexivity | exact IH]. Qed.

Lemma key_uses_app (t1 t2 : list event) :
  key_uses (t1 ++ t2) = key_uses t1 ++ key_uses t2.
Proof. unfold key_uses. apply flat_map_app. Qed.

Lemma key_uses_round (k : Key) :
  key_uses (rtrace k) = [inl k; inr (round_keys k)].
Proof.
  unfold round_trace. rewrite key_uses_app, key_uses_shown. reflexivity.
Qed.

Lemma rounds_performed_rounds (ks : list Key) :
  rounds_performed (concat (map rtrace ks)) = length ks.
Proof.
  unfold rounds_performed. induction ks as [|k ks IH]; [reflexivity|].
  cbn [map concat]. rewrite filter_app, length_app, IH, round_trace_generate.
  reflexivity.
Qed.

Lemma running_keys_length (n : nat) (k : Key) :
  length (running_keys n k) = n.
Proof. revert k. induction n; intros k; cbn; [reflexivity | now rewrite IHn]. Qed.

Lemma rounds_performed_generation (n : Z) (s : state) :
  rounds_performed (emitted (gen n) s) = n_iter n.
Proof.
  rewrite emitted_generation.
  change (rounds_performed (?e :: ?t)) with (rounds_performed t).
  now rewrite rounds_performed_rounds, running_keys_length.
Qed.

Lemma round_images_length (k : Key) :
  length (rimages k) = device_count * length prompts.
Proof. unfold round_images. now rewrite length_map, length_seq. Qed.

Lemma images_generation_length (n : Z) (s : state) :
  length (images (fst (gen n s)))
  = n_iter n * (device_count * length prompts).
Proof.
  rewrite generation_run. cbn [fst images].
  rewrite (length_concat_const (device_count * length prompts)).
  - now rewrite length_map, running_keys_length.
  - apply Forall_forall. intros l Hl. apply in_map_iff in Hl.
    destruct Hl as [k [<- _]]. apply round_images_length.
Qed.

Lemma n_iter_Z (n : Z) :
  Z.of_nat (n_iter n) = n_rounds n (Z.of_nat device_count).
Proof. rewrite n_iter_eq. unfold n_rounds. lia. Qed.

(** ** The number of rounds and of images *)

(** C1 (amended).  The generation runner finishes and performs exactly
    [max(n_predictions // device_count, 1)] rounds, the floor of the
    quotient and not its ceiling; for [n_predictions >= 1] the two agree
    exactly when [device_count] divides [n_predictions] or
    [n_predictions < device_count]. *)
Theorem C1_rounds_floor (n : Z) (s : state) :
  (1 <= n)%Z ->
  snd (gen n s) = Ok tt /\
  Z.of_nat (rounds_performed (emitted (gen n) s))
    = Z.max (n / Z.of_nat device_count) 1 /\
  (Z.of_nat (rounds_performed (emitted (gen n) s))
     = ceil_div n (Z.of_nat device_count)
   <-> (Z.of_nat device_count | n)%Z \/ (n < Z.of_nat device_count)%Z).
Proof.
  intros Hn. rewrite rounds_performed_generation, n_iter_Z.
  split; [now rewrite generation_run|]. split; [reflexivity|].
  apply n_rounds_ceil_iff; lia.
Qed.

(** C2 (amended).  After the loop the accumulated image list has
    [rounds * device_count * samples_per_device] entries, every device
    giving one sample per prompt.  Per prompt that is [n_predictions]
    rounded down to a multiple of [device_count], and at least
    [device_count]; when [device_count] divides [n_predictions] the length
    is [n_predictions] times the prompt count, hence at least
    [n_predictions]. *)
Theorem C2_image_count (n : Z) (s : state) :
  (1 <= n)%Z -> 1 <= length prompts ->
  let r := rounds_performed (emitted (gen n) s) in
  let len := length (images (fst (gen n s))) in
  len = r * device_count * length prompts /\
  Z.of_nat (r * device_count)
    = Z.max (n - n mod Z.of_nat device_count) (Z.of_nat device_count) /\
  ((Z.of_nat device_count | n)%Z ->
   Z.of_nat len = (n * Z.of_nat (length prompts))%Z /\ (n <= Z.of_nat len)%Z).
Proof.
  intros Hn Hp r len. subst r len.
  rewrite rounds_performed_generation, images_generation_length.
  split; [lia|]. split.
  - rewrite Nat2Z.inj_mul, n_iter_Z. apply n_rounds_floor_multiple. lia.
  - intros Hdiv.
    assert (Hd : (1 <= Z.of_nat device_count)%Z) by lia.
    pose proof (n_rounds_exact n (Z.of_nat device_count) Hn Hd Hdiv) as Hex.
    rewrite <- n_iter_Z in Hex. nia.
Qed.

(** C5.  On a single device the runner performs exactly [n_predictions]
    rounds; in each the generator receives one key shard, so the mapped
    batch axis has length 1, and every prompt gets one image per round. *)
Theorem C5_single_device (n : Z) (s : state) :
  device_count = 1 -> (1 <= n)%Z ->
  rounds_performed (emitted (gen n) s) = Z.to_nat n /\
  Forall (fun ev =>
            match ev with
            | EvGenerate ks g =>
                length ks = 1 /\
                Nd.shape g = [1; length prompts; max_length]
            | _ => True
            end) (emitted (gen n) s) /\
  length (images (fst (gen n s))) = Z.to_nat n * length prompts.
Proof.
  intros Hd Hn.
  rewrite rounds_performed_generation, images_generation_length.
  assert (Hit : n_iter n = Z.to_nat n).
  { rewrite n_iter_eq, Hd. change (Z.of_nat 1) with 1%Z.
    rewrite Z.div_1_r. lia. }
  rewrite Hit, Hd. split; [reflexivity|]. split; [|lia].
  rewrite emitted_generation. constructor; [exact I|].
  apply Forall_concat, Forall_forall. intros tr Htr.
  apply in_map_iff in Htr. destruct Htr as [k [<- _]].
  unfold round_trace. apply Forall_app. split.
  - repeat constructor.
    + unfold round_keys. now rewrite shards.
    + cbn [round_sequences Nd.shape]. now rewrite Hd.
  - apply Forall_flat_map, Forall_forall. intros img _.
    repeat constructor.
Qed.

(** C9.  The runner never performs zero rounds; when
    [0 <= n_predictions < device_count] it performs exactly one, which
    leaves [device_count * prompt_count] images. *)
Theorem C9_at_least_one_round (n : Z) (s : state) :
  1 <= rounds_performed (emitted (gen n) s) /\
  ((0 <= n < Z.of_nat device_count)%Z ->
   rounds_performed (emitted (gen n) s) = 1 /\
   length (images (fst (gen n s))) = device_count * length prompts).
Proof.
  rewrite rounds_performed_generation, images_generation_length.
  rewrite n_iter_eq. split; [lia|]. intros Hn.
  rewrite Z.div_small by lia. cbn. lia.
Qed.

Lemma key_uses_generation (n : Z) (s : state) :
  key_uses (emitted (gen n) s)
  = flat_map (fun k => [inl k; inr (round_keys k)])
             (running_keys (n_iter n) (key s)).
Proof.
  rewrite emitted_generation.
  change (key_uses (EvPrint ?m :: ?t)) with (key_uses t).
  generalize (running_keys (n_iter n) (key s)). intros ks.
  induction ks as [|k ks IH]; [reflexivity|].
  cbn [map concat flat_map]. now rewrite key_uses_app, key_uses_round, IH.
Qed.

Lemma key_generation (n : Z) (s : state) :
  key (fst (gen n s)) = final_key (n_iter n) (key s).
Proof. now rewrite generation_run. Qed.

(** ** Inside a round *)

Lemma final_key_S (n : nat) (k : Key) :
  final_key (S n) k = fst (split (final_key n k)).
Proof. revert k. induction n as [|n IH]; intros k; [reflexivity|].
  change (final_key (S (S n)) k) with (final_key (S n) (fst (split k))).
  rewrite IH. reflexivity.
Qed.

(** C6.  A round splits the running key exactly once; the first half is
    the running key of the next round, the second half is sharded over
    the devices and goes to the one generator call of the round.  Over the
    loop the key is the initial one advanced once per round. *)
Theorem C6_one_split_per_round (i : Z) (s : state) (n : Z) :
  filter is_split (emitted (body i) s) = [EvSplit (key s)] /\
  key (fst (body i s)) = fst (split (key s)) /\
  key_uses (emitted (body i) s)
    = [inl (key s); inr (shard_prng_key (snd (split (key s))))] /\
  key (fst (gen n s))
    = final_key (rounds_performed (emitted (gen n) s)) (key s) /\
  length (filter is_split (emitted (gen n) s))
    = rounds_performed (emitted (gen n) s).
Proof.
  rewrite emitted_round, round_body_run, rounds_performed_generation.
  rewrite generation_run, emitted_generation. cbn [fst key].
  repeat split.
  - apply round_trace_split.
  - apply key_uses_round.
  - cbn [filter is_split].
    generalize (running_keys_length (n_iter n) (key s)).
    generalize (running_keys (n_iter n) (key s)) as ks.
    intros ks <-. induction ks as [|k ks IH]; [reflexivity|].
    cbn [map concat]. rewrite filter_app, length_app, IH, round_trace_split.
    reflexivity.
Qed.

Lemma round_sequences_length (k : Key) :
  length (Nd.data (round_sequences prompts model_params gen_top_k gen_top_p
                     temperature cond_scale max_length k))
  = device_count * length prompts * max_length.
Proof.
  cbn [round_sequences Nd.data].
  rewrite (length_concat_const (length prompts * max_length)).
  - unfold round_keys. rewrite length_map, shards. lia.
  - apply Forall_forall. intros l Hl. apply in_map_iff in Hl.
    destruct Hl as [kk [<- _]].
    destruct (sequences prompts kk model_params gen_top_k gen_top_p
                temperature cond_scale) as [Hsh Hwf].
    unfold Nd.wf in Hwf. rewrite Hwf, Hsh. cbn. lia.
Qed.

Lemma rows_3d {A : Type} (d p len : nat) (l : list A) :
  Nd.rows (Nd.mk [d; p; len] l) = blocks (d * p) len l.
Proof.
  unfold Nd.rows. cbn [Nd.shape Nd.data rev app].
  replace (Nd.numel [d; p]) with (d * p) by (cbn; lia). reflexivity.
Qed.

Lemma skipn_1_tl {A : Type} (l : list A) : skipn 1 l = tl l.
Proof. now destruct l. Qed.

(** C7.  In a round the decoder is called once, on the generator's
    output with the first token of every sequence removed. *)
Theorem C7_bos_removed (i : Z) (s : state) :
  exists ks g a,
    filter is_generate (emitted (body i) s) = [EvGenerate ks g] /\
    filter is_decode (emitted (body i) s) = [EvDecode a] /\
    length (Nd.rows g) = device_count * length prompts /\
    Forall (fun row => length row = max_length) (Nd.rows g) /\
    Nd.rows a = map (@tl Z) (Nd.rows g).
Proof.
  rewrite emitted_round.
  eexists _, _, _. split; [apply round_trace_generate|]. split.
  { unfold round_trace. rewrite filter_app, filter_shown by reflexivity.
    reflexivity. }
  unfold round_sequences at 1 2 3. unfold round_encoded.
  rewrite !rows_3d, blocks_length. split; [reflexivity|].
  pose proof (round_sequences_length (key s)) as Hlen.
  cbn [round_sequences Nd.data] in Hlen |- *.
  assert (Hrows := blocks_Forall_length _ _ _ Hlen).
  split; [exact Hrows|].
  set (rws := blocks (device_count * length prompts) max_length _) in *.
  replace (device_count * length prompts)
    with (length (map (skipn 1) rws))
    by (subst rws; now rewrite length_map, blocks_length).
  rewrite (blocks_concat (max_length - 1)).
  - apply map_ext. apply skipn_1_tl.
  - apply Forall_map. revert Hrows. apply Forall_impl.
    intros row Hrow. rewrite length_skipn. lia.
Qed.

Lemma block_map {A B : Type} (f : A -> B) (n j : nat) (l : list A) :
  block n j (map f l) = map f (block n j l).
Proof. unfold block. now rewrite skipn_map, firstn_map. Qed.

Lemma to_uint8_byte (x : Q) : (0 <= to_uint8 x <= 255)%Z.
Proof.
  unfold to_uint8. pose proof (Z.mod_pos_bound (Qtrunc x) 256). lia.
Qed.

Lemma round_decoded_length (k : Key) :
  length (round_decoded prompts model_params vqgan_params gen_top_k
            gen_top_p temperature cond_scale max_length k)
  = device_count * length prompts * image_size.
Proof.
  unfold round_decoded.
  rewrite (length_concat_const (length prompts * image_size)).
  - rewrite length_map, blocks_length. lia.
  - apply Forall_forall. intros x Hx. apply in_map_iff in Hx.
    destruct Hx as [b [<- _]].
    destruct (decodes (Nd.mk [length prompts; max_length - 1] b)
                vqgan_params (length prompts) (max_length - 1) eq_refl)
      as [Hsh Hwf].
    unfold Nd.wf in Hwf. rewrite Hwf, Hsh. apply numel_images.
Qed.


End Generation.

(** ** Determinism of the key sequence *)

Section Determinism.

Context {E : Env}.

Variable max_length : nat.
Hypothesis devices : 1 <= device_count.
Hypothesis shards : shard_ok.
Hypothesis sequences : generate_ok max_length.
Hypothesis decodes : decode_ok.

(** C4.  Two runs of the generation loop from the same key, on the same
    devices and with the same round count, split the same keys and hand
    the same key shards to the generator, round by round, and end on the
    same key, whatever the prompts, parameters, sampling settings, images
    and output the two runs otherwise start from. *)
Theorem C4_key_sequence_deterministic
    (prompts1 prompts2 : list String.string) (mp1 mp2 : Params)
    (vq1 vq2 : VqParams) (k1 k2 : option Z)
    (p1 p2 t1 t2 c1 c2 : option Q) (n1 n2 : Z) (s1 s2 : state) :
  key s1 = key s2 ->
  n_rounds n1 (Z.of_nat device_count) = n_rounds n2 (Z.of_nat device_count) ->
  let m1 := generation prompts1 mp1 vq1 n1 k1 p1 t1 c1 in
  let m2 := generation prompts2 mp2 vq2 n2 k2 p2 t2 c2 in
  key_uses (emitted m1 s1) = key_uses (emitted m2 s2) /\
  rounds_performed (emitted m1 s1) = rounds_performed (emitted m2 s2) /\
  key (fst (m1 s1)) = key (fst (m2 s2)).
Proof.
  intros Hk Hn m1 m2. subst m1 m2.
  rewrite !(key_uses_generation max_length), !(key_generation max_length),
    !(rounds_performed_generation max_length) by assumption.
  unfold n_iter. rewrite Hk, Hn. repeat split.
Qed.

End Determinism.

(** ** The cast to bytes *)

Lemma clip_unit (x : Q) : (0 <= clip 0 1 x <= 1)%Q.
Proof.
  unfold clip. split.
  - apply Q.min_glb; [apply Q.le_max_r | discriminate].
  - apply Q.le_min_r.
Qed.

Lemma Qtrunc_byte (y : Q) :
  (0 <= y)%Q -> (y <= 255)%Q -> (0 <= Qtrunc y <= 255)%Z.
Proof.
  unfold Qle, Qtrunc. cbn [Qnum Qden]. intros H0 H255.
  rewrite Z.quot_div_nonneg by lia. split.
  - apply Z.div_pos; lia.
  - apply Z.div_le_upper_bound; lia.
Qed.

Section Cast.

Context {E : Env}.
Hypothesis rounding : rnd_ok.

Lemma scaled_range (x : Q) :
  (0 <= fmul (clip 0 1 x) 255)%Q /\ (fmul (clip 0 1 x) 255 <= 255)%Q.
Proof.
  destruct rounding as [Hmono [H0 H255]].
  destruct (clip_unit x) as [Hlo Hhi]. unfold fmul. split.
  - apply Qle_trans with (rnd 0).
    + apply Qle_lteq. right. symmetry. exact H0.
    + apply Hmono. apply Qmult_le_0_compat; [assumption | discriminate].
  - apply Qle_trans with (rnd 255).
    + apply Hmono. apply Qle_trans with (1 * 255)%Q.
      * apply Qmult_le_compat_r; [assumption | discriminate].
      * discriminate.
    + apply Qle_lteq. right. exact H255.
Qed.

(** For finite values: a pixel value clipped to [0,1] and scaled by 255
    lies in [0,255]; its byte is its truncation, the reduction modulo 256
    changing nothing, so an image's bytes are the truncated scaled
    values. *)
Lemma scaled_value_byte (x : Q) (a : Nd.ndarray Q) :
  let y := fmul (clip 0 1 x) 255 in
  ((0 <= y)%Q /\ (y <= 255)%Q) /\
  to_uint8 y = Qtrunc y /\
  (0 <= Qtrunc y <= 255)%Z /\
  Nd.data (to_image (Nd.map (clip 0 1) a))
    = map (fun v => Qtrunc (fmul (clip 0 1 v) 255)) (Nd.data a).
Proof.
  assert (Hbyte : forall v,
             to_uint8 (fmul (clip 0 1 v) 255) = Qtrunc (fmul (clip 0 1 v) 255)).
  { intros v. destruct (scaled_range v) as [Hlo Hhi].
    unfold to_uint8. apply Z.mod_small.
    pose proof (Qtrunc_byte _ Hlo Hhi). lia. }
  intros y. subst y. destruct (scaled_range x) as [Hlo Hhi].
  split; [now split|]. split; [apply Hbyte|].
  split; [now apply Qtrunc_byte|].
  unfold to_image, fromarray, Nd.map. cbn [Nd.data Nd.shape].
  rewrite !map_map. apply map_ext. intros v. apply Hbyte.
Qed.

Lemma scaled_unit (c : Q) :
  (0 <= c)%Q -> (c <= 1)%Q ->
  (0 <= fmul c 255)%Q /\ (fmul c 255 <= 255)%Q.
Proof.
  intros Hlo Hhi. destruct rounding as [Hmono [H0 H255]]. unfold fmul. split.
  - apply Qle_trans with (rnd 0).
    + apply Qle_lteq. right. symmetry. exact H0.
    + apply Hmono. apply Qmult_le_0_compat; [assumption | discriminate].
  - apply Qle_trans with (rnd 255).
    + apply Hmono. apply Qle_trans with (1 * 255)%Q.
      * apply Qmult_le_compat_r; [assumption | discriminate].
      * discriminate.
    + apply Qle_lteq. right. exact H255.
Qed.

Lemma fmul32_unit (c : Q) :
  (0 <= c)%Q -> (c <= 1)%Q -> fmul32 (FFin c) 255 = FFin (fmul c 255).
Proof.
  intros Hlo Hhi. destruct (scaled_unit c Hlo Hhi) as [H0 H255].
  unfold fmul32.
  assert (Hmax : Qle_bool (fmul c 255) float32_max = true).
  { apply Qle_bool_iff. apply Qle_trans with 255%Q; [assumption|].
    discriminate. }
  assert (Hmin : Qle_bool (- float32_max) (fmul c 255) = true).
  { apply Qle_bool_iff. apply Qle_trans with 0%Q; [discriminate | assumption]. }
  now rewrite Hmax, Hmin.
Qed.

(** C10 (amended).  For every decoded pixel value that is not a NaN,
    finite or infinite, the value clipped to [0,1] and scaled by 255 is a
    finite number in [0,255]; its byte is its truncation, the reduction
    modulo 256 changing nothing.  For a finite value this is the number
    the image bytes are made of. *)
Theorem C10_no_wraparound (x : float32) (a : Nd.ndarray Q) :
  x <> FNaN ->
  exists y : Q,
    fmul32 (fclip 0 1 x) 255 = FFin y /\
    ((0 <= y)%Q /\ (y <= 255)%Q) /\
    f_to_uint8 (FFin y) = Some (Qtrunc y) /\
    (0 <= Qtrunc y <= 255)%Z /\
    (forall q, x = FFin q -> y = fmul (clip 0 1 q) 255) /\
    Nd.data (to_image (Nd.map (clip 0 1) a))
      = map (fun v => Qtrunc (fmul (clip 0 1 v) 255)) (Nd.data a).
Proof.
  intros Hx.
  assert (Hc : exists c, fclip 0 1 x = FFin c /\ (0 <= c)%Q /\ (c <= 1)%Q /\
                         (forall q, x = FFin q -> c = clip 0 1 q)).
  { destruct x as [|[|]|q]; [congruence| | |].
    - exists (Qmin 0 1). repeat split; try discriminate.
    - exists 1%Q. repeat split; try discriminate.
    - exists (clip 0 1 q). destruct (clip_unit q) as [Hlo Hhi].
      repeat split; try assumption. intros q' Hq. now injection Hq as ->. }
  destruct Hc as [c [Hclip [Hlo [Hhi Hfin]]]].
  destruct (scaled_unit c Hlo Hhi) as [H0 H255].
  exists (fmul c 255). rewrite Hclip, (fmul32_unit c Hlo Hhi).
  split; [reflexivity|]. split; [now split|].
  pose proof (Qtrunc_byte _ H0 H255) as Hbyte.
  split.
  { cbn [f_to_uint8]. f_equal. unfold to_uint8. apply Z.mod_small. lia. }
  split; [exact Hbyte|]. split.
  { intros q Hq. now rewrite (Hfin q Hq). }
  apply (scaled_value_byte 0 a).
Qed.

End Cast.

(** ** The small instance meets the assumptions *)

Lemma toy_shard_ok (d : nat) : shard_ok (E := toy d).
Proof. intros k. cbn. now rewrite length_map, length_seq. Qed.

Lemma toy_generate_ok (d : nat) : generate_ok (E := toy d) 3.
Proof.
  intros prompts k ps top_k top_p temperature cs. cbn. split; [reflexivity|].
  unfold Nd.wf. cbn [Nd.data Nd.shape Nd.numel fold_right].
  rewrite (length_concat_const 3).
  - rewrite length_map, length_seq. lia.
  - apply Forall_forall. intros l Hl. apply in_map_iff in Hl.
    now destruct Hl as [i [<- _]].
Qed.

Lemma toy_decode_ok (d : nat) : decode_ok (E := toy d).
Proof.
  intros a vp n len Hsh. cbn [decode_code toy]. rewrite Hsh.
  split; [reflexivity|].
  unfold Nd.wf. cbn [Nd.data Nd.shape hd]. rewrite numel_images.
  rewrite (flat_map_constant_length (c := image_size)).
  - unfold Nd.rows. rewrite Hsh. cbn [rev app].
    rewrite blocks_length. cbn [Nd.numel fold_right].
    now rewrite Nat.mul_1_r.
  - intros row _. apply repeat_length.
Qed.

Lemma toy_rnd_ok (d : nat) : rnd_ok (E := toy d).
Proof.
  split; [|split; reflexivity].
  intros x y Hxy. cbn [rnd toy].
  assert (H : (Qfloor (x * 1024) <= Qfloor (y * 1024))%Z).
  { apply Qfloor_resp_le. apply Qmult_le_compat_r; [assumption | discriminate]. }
  unfold Qle. cbn [Qnum Qden]. lia.
Qed.

Lemma toy_clip_ok (d : nat) : clip_ok (E := toy d).
Proof.
  intros text imgs cp. cbn [clip_logits toy device_count].
  split; [reflexivity|].
  unfold Nd.wf. cbn [Nd.data Nd.shape Nd.numel fold_right].
  rewrite length_map, length_seq. lia.
Qed.

Lemma toy_devices (d : nat) : 1 <= d -> 1 <= device_count (Env := toy d).
Proof. intros H. exact H. Qed.

(** ** The theorems at work on the small instance *)

Lemma C1_rounds_floor_witness :
  let m := toy_generation 4 toy_prompts 8 in
  snd (m (toy_start 4)) = Ok tt /\
  Z.of_nat (rounds_performed (emitted m (toy_start 4))) = 2%Z.
Proof.
  intros m.
  destruct (C1_rounds_floor (E := toy 4) 3 (toy_devices 4 ltac:(lia))
              (toy_shard_ok 4) (toy_generate_ok 4) (toy_decode_ok 4)
              toy_prompts tt tt None None None (Some 10%Q) 8 (toy_start 4)
              ltac:(lia)) as [H1 [H2 _]].
  split; [exact H1 | exact H2].
Defined.

(** Nine predictions on four devices: two rounds, not three. *)
Lemma C1_counterexample :
  let m := toy_generation 4 toy_prompts 9 in
  Z.of_nat (rounds_performed (emitted m (toy_start 4)))
  <> ceil_div 9 (Z.of_nat (device_count (Env := toy 4))).
Proof.
  intros m. subst m. unfold toy_generation.
  rewrite (rounds_performed_generation (E := toy 4) 3
             (toy_devices 4 ltac:(lia)) (toy_shard_ok 4)
             (toy_generate_ok 4) (toy_decode_ok 4)).
  vm_compute. discriminate.
Qed.

Lemma C2_image_count_witness :
  let m := toy_generation 4 toy_prompts 8 in
  length (images (fst (m (toy_start 4))))
  = rounds_performed (emitted m (toy_start 4)) * 4 * 2.
Proof.
  intros m.
  exact (proj1 (C2_image_count (E := toy 4) 3 (toy_devices 4 ltac:(lia))
                  (toy_shard_ok 4) (toy_generate_ok 4) (toy_decode_ok 4)
                  toy_prompts tt tt None None None (Some 10%Q) 8
                  (toy_start 4) ltac:(lia) ltac:(cbn; lia))).
Defined.

(** Nine predictions for one prompt on four devices leave eight images. *)
Lemma C2_counterexample :
  let m := toy_generation 4 ["a lake"%string] 9 in
  ~ (9 <= Z.of_nat (length (images (fst (m (toy_start 4))))))%Z.
Proof.
  intros m. subst m. unfold toy_generation.
  rewrite (images_generation_length (E := toy 4) 3
             (toy_devices 4 ltac:(lia)) (toy_shard_ok 4)
             (toy_generate_ok 4) (toy_decode_ok 4)).
  vm_compute. intros H. apply H. reflexivity.
Qed.

Lemma C5_single_device_witness :
  let m := toy_generation 1 toy_prompts 3 in
  rounds_performed (emitted m (toy_start 1)) = 3 /\
  length (images (fst (m (toy_start 1)))) = 3 * 2.
Proof.
  intros m.
  destruct (C5_single_device (E := toy 1) 3 (toy_devices 1 ltac:(lia))
              (toy_shard_ok 1) (toy_generate_ok 1) (toy_decode_ok 1)
              toy_prompts tt tt None None None (Some 10%Q) 3 (toy_start 1)
              eq_refl ltac:(lia)) as [H1 [_ H3]].
  split; [exact H1 | exact H3].
Defined.

Lemma C9_at_least_one_round_witness :
  let m := toy_generation 4 toy_prompts 0 in
  rounds_performed (emitted m (toy_start 4)) = 1 /\
  length (images (fst (m (toy_start 4)))) = 4 * 2.
Proof.
  intros m.
  exact (proj2 (C9_at_least_one_round (E := toy 4) 3
                  (toy_devices 4 ltac:(lia)) (toy_shard_ok 4)
                  (toy_generate_ok 4) (toy_decode_ok 4)
                  toy_prompts tt tt None None None (Some 10%Q) 0
                  (toy_start 4)) ltac:(cbn; lia)).
Defined.

Lemma C6_one_split_per_round_witness :
  let body := toy_body 2 in
  key (fst (body 0%Z (toy_start 2))) = 15%Z /\
  key_uses (emitted (body 0%Z) (toy_start 2))
  = [inl 7%Z; inr [1600%Z; 1601%Z]].
Proof.
  intros body.
  destruct (C6_one_split_per_round (E := toy 2) 3 (toy_devices 2 ltac:(lia))
              (toy_shard_ok 2) (toy_generate_ok 2) (toy_decode_ok 2)
              toy_prompts tt tt None None None (Some 10%Q) 0 (toy_start 2) 2)
    as [_ [H2 [H3 _]]].
  split; [exact H2 | exact H3].
Defined.

Lemma C7_bos_removed_witness :
  let body := toy_body 2 in
  exists ks g a,
    filter is_generate (emitted (body 0%Z) (toy_start 2)) = [EvGenerate ks g] /\
    filter is_decode (emitted (body 0%Z) (toy_start 2)) = [EvDecode a] /\
    Nd.rows a = map (@tl Z) (Nd.rows g).
Proof.
  intros body.
  destruct (C7_bos_removed (E := toy 2) 3 (toy_devices 2 ltac:(lia))
              (toy_shard_ok 2) (toy_generate_ok 2) (toy_decode_ok 2)
              toy_prompts tt tt None None None (Some 10%Q) 0 (toy_start 2))
    as [ks [g [a [H1 [H2 [_ [_ H5]]]]]]].
  exists ks, g, a. split; [exact H1 | split; [exact H2 | exact H5]].
Defined.


Lemma C4_key_sequence_deterministic_witness :
  let m1 := toy_generation 2 toy_prompts 4 in
  let m2 := generation (E := toy 2) ["a lake"%string] tt tt 5 (Some 3%Z)
              None (Some 1%Q) None in
  let s2 := mkState (E := toy 2) 7%Z [Nd.mk [1] [0%Z]]
              [EvPrint MsgBlank] in
  key_uses (emitted m1 (toy_start 2)) = key_uses (emitted m2 s2) /\
  key (fst (m1 (toy_start 2))) = key (fst (m2 s2)).
Proof.
  intros m1 m2 s2.
  destruct (C4_key_sequence_deterministic (E := toy 2) 3
              (toy_devices 2 ltac:(lia)) (toy_shard_ok 2)
              (toy_generate_ok 2) (toy_decode_ok 2)
              toy_prompts ["a lake"%string] tt tt tt tt None (Some 3%Z)
              None None None (Some 1%Q) (Some 10%Q) None 4 5
              (toy_start 2) s2 eq_refl eq_refl) as [H1 [_ H3]].
  split; [exact H1 | exact H3].
Defined.

Lemma C10_no_wraparound_witness :
  exists y : Q,
    fmul32 (E := toy 1) (fclip 0 1 (FFin (3 # 2))) 255 = FFin y /\
    (y <= 255)%Q /\ f_to_uint8 (FFin y) = Some (Qtrunc y).
Proof.
  destruct (C10_no_wraparound (E := toy 1) (toy_rnd_ok 1) (FFin (3 # 2))
              (Nd.mk [1] [(3 # 2)%Q]) ltac:(discriminate))
    as [y [H1 [[_ H2] [H3 _]]]].
  exists y. split; [exact H1 | split; [exact H2 | exact H3]].
Defined.

(** A NaN pixel stays a NaN through the clip and the product: the scaled
    value is no number in [0,255], and its cast has no defined byte. *)
Lemma C10_counterexample :
  ~ (exists y : Q,
       fmul32 (E := toy 1) (fclip 0 1 FNaN) 255 = FFin y /\
       (0 <= y)%Q /\ (y <= 255)%Q) /\
  f_to_uint8 (fmul32 (E := toy 1) (fclip 0 1 FNaN) 255) = None.
Proof.
  split; [|reflexivity]. intros [y [H _]]. discriminate H.
Qed.

(** ** Strided slices *)

Lemma every_nth_spec {A : Type} (d0 : A) (p i : nat) :
  1 <= p -> i < p ->
  forall r fuel (l : list A),
    length l = r * p - i -> r <= fuel ->
    every_nth fuel p l = map (fun t => nth (t * p) l d0) (seq 0 r).
Proof.
  intros Hp Hi. induction r as [|r IH]; intros fuel l Hl Hfuel.
  - destruct l; [|cbn in Hl; lia]. now destruct fuel.
  - destruct fuel as [|fuel]; [lia|].
    destruct l as [|x l0]; [cbn in Hl; lia|].
    cbn [every_nth seq map]. f_equal.
    rewrite (IH fuel (skipn p (x :: l0))).
    + rewrite <- seq_shift, map_map. apply map_ext. intros t.
      rewrite nth_skipn. reflexivity.
    + rewrite length_skipn. lia.
    + lia.
Qed.

Lemma slice_from_step_spec {A : Type} (d0 : A) (p i r : nat) (l : list A) :
  1 <= p -> i < p -> length l = r * p ->
  slice_from_step i p l = map (fun t => nth (i + t * p) l d0) (seq 0 r).
Proof.
  intros Hp Hi Hl. unfold slice_from_step.
  rewrite (every_nth_spec d0 p i Hp Hi r).
  - apply map_ext. intros t. apply nth_skipn.
  - rewrite length_skipn. lia.
  - nia.
Qed.

Lemma nth_block {A : Type} (d0 : A) (n k i : nat) (l : list A) :
  i < n -> nth i (block n k l) d0 = nth (k * n + i) l d0.
Proof.
  intros Hi. unfold block. rewrite nth_firstn.
  destruct (Nat.ltb_spec i n); [apply nth_skipn | lia].
Qed.

Lemma block_length {A : Type} (n k : nat) (l : list A) :
  (k + 1) * n <= length l -> length (block n k l) = n.
Proof. intros H. unfold block. rewrite length_firstn, length_skipn. lia. Qed.

Lemma block_1 {A : Type} (d0 : A) (i : nat) (l : list A) :
  i < length l -> block 1 i l = [nth i l d0].
Proof.
  intros Hi. unfold block. rewrite Nat.mul_1_r.
  revert i Hi. induction l as [|x l IH]; intros i Hi; [cbn in Hi; lia|].
  destruct i as [|i]; [reflexivity|]. cbn [skipn nth].
  apply IH. cbn in Hi. lia.
Qed.

Lemma concat_singletons {A B : Type} (f : A -> B) (l : list A) :
  concat (map (fun x => [f x]) l) = map f l.
Proof. induction l as [|x l IH]; cbn; [reflexivity | now rewrite IH]. Qed.

Lemma concat_concat_map {A : Type} (ll : list (list (list A))) :
  concat (concat ll) = concat (map (@concat A) ll).
Proof.
  induction ll as [|l ll IH]; [reflexivity|].
  cbn [concat map]. now rewrite concat_app, IH.
Qed.

Lemma map_seq_shift {B : Type} (f : nat -> B) (a r : nat) :
  map f (seq a r) = map (fun t => f (a + t)) (seq 0 r).
Proof.
  revert a. induction r as [|r IH]; intros a; [reflexivity|].
  cbn [seq map]. rewrite Nat.add_0_r. f_equal.
  rewrite (IH (S a)), <- seq_shift, map_map.
  apply map_ext. intros t. f_equal. lia.
Qed.

Lemma seq_flatten {B : Type} (f : nat -> B) (d r : nat) :
  concat (map (fun j => map (fun t => f (j * r + t)) (seq 0 r)) (seq 0 d))
  = map f (seq 0 (d * r)).
Proof.
  induction d as [|d IH]; [reflexivity|].
  rewrite seq_S, map_app, concat_app, IH. cbn [map concat plus].
  rewrite app_nil_r.
  replace (S d * r) with (d * r + r) by lia.
  rewrite seq_app, map_app. f_equal.
  cbn [plus]. now rewrite (map_seq_shift f (d * r) r).
Qed.

Lemma slice_count (p i r : nat) :
  1 <= p -> i < p -> length (slice_from_step i p (seq 0 (r * p))) = r.
Proof.
  intros Hp Hi.
  rewrite (slice_from_step_spec 0 p i r) by (now rewrite ?length_seq).
  now rewrite length_map, length_seq.
Qed.

Lemma device_pick {A : Type} (d0 : A) (p c i r : nat) (dev : list A) :
  1 <= p -> i < p -> i < c -> length dev = r * p * c ->
  concat (map (block 1 i) (slice_from_step i p (blocks (r * p) c dev)))
  = map (fun t => nth ((i + t * p) * c + i) dev d0) (seq 0 r).
Proof.
  intros Hp Hi Hc Hdev.
  rewrite (slice_from_step_spec [] p i r) by (now rewrite ?blocks_length).
  rewrite map_map.
  rewrite <- (concat_singletons (fun t => nth ((i + t * p) * c + i) dev d0)).
  f_equal.
  apply map_ext_in. intros t Ht. apply in_seq in Ht.
  assert (Hrow : i + t * p < r * p) by nia.
  rewrite nth_blocks by assumption.
  assert (Hlen : length (block c (i + t * p) dev) = c).
  { apply block_length. nia. }
  rewrite (block_1 d0) by lia.
  now rewrite nth_block.
Qed.

Lemma slice_stride_col_spec {A : Type} (d0 : A) (d r p c i : nat)
    (l : list A) :
  1 <= p -> i < p -> i < c -> length l = d * (r * p * c) ->
  Nd.slice_stride_col i p (Nd.mk [d; r * p; c] l)
  = Ok (Nd.mk [d; r]
          (concat (map (fun j =>
                          map (fun t => nth ((j * (r * p) + (i + t * p)) * c + i)
                                            l d0)
                              (seq 0 r))
                       (seq 0 d)))).
Proof.
  intros Hp Hi Hc Hl. unfold Nd.slice_stride_col. cbn [Nd.shape Nd.data].
  destruct (Nat.eqb_spec p 0) as [H0|_]; [lia|].
  destruct (Nat.ltb_spec i c) as [_|H0]; [|lia].
  cbn [Nd.numel fold_right]. rewrite !Nat.mul_1_r.
  rewrite slice_count by assumption. do 2 f_equal.
  rewrite concat_concat_map, map_map. f_equal.
  unfold blocks at 2. rewrite map_map.
  apply map_ext_in. intros j Hj. apply in_seq in Hj.
  assert (Hdev : length (block (r * p * c) j l) = r * p * c).
  { apply block_length. nia. }
  rewrite (device_pick d0) by assumption.
  apply map_ext_in. intros t Ht. apply in_seq in Ht.
  assert (Hrow : i + t * p + 1 <= r * p) by nia.
  apply (Nat.mul_le_mono_r _ _ c) in Hrow.
  rewrite Nat.mul_add_distr_r, Nat.mul_1_l in Hrow.
  rewrite nth_block by lia. f_equal. ring.
Qed.

(** ** Running the scoring cells *)

Lemma sequence_map_ok {A B : Type} (f : A -> outcome B) (g : A -> B)
    (l : list A) :
  (forall x, In x l -> f x = Ok (g x)) ->
  sequence (map f l) = Ok (map g l).
Proof.
  induction l as [|x l IH]; intros H; [reflexivity|].
  cbn [map sequence]. rewrite (H x) by now left.
  rewrite IH by (intros y Hy; apply H; now right). reflexivity.
Qed.

Lemma block_of_concat {A : Type} (n i : nat) (ll : list (list A)) :
  Forall (fun b => length b = n) ll -> i < length ll ->
  block n i (concat ll) = nth i ll [].
Proof.
  intros Hall Hi. rewrite <- (nth_blocks (length ll)) by assumption.
  now rewrite blocks_concat.
Qed.

Lemma blocks_singletons {A : Type} (l : list A) :
  blocks (length l) 1 l = map (fun x => [x]) l.
Proof.
  induction l as [|x l IH]; [reflexivity|].
  cbn [length map]. change (x :: l) with ([x] ++ l).
  rewrite blocks_app by reflexivity. now rewrite IH.
Qed.

Lemma squeeze_matrix {A : Type} (p d r : nat) (l : list A) :
  2 <= p -> (d = 1 /\ 2 <= r) \/ (2 <= d /\ r = 1) ->
  Nd.squeeze (Nd.mk [p; d; r] l) = Nd.mk [p; d * r] l.
Proof.
  intros Hp Hdr. unfold Nd.squeeze. cbn [Nd.shape Nd.data filter].
  destruct (Nat.eqb_spec p 1) as [H|_]; [lia|]. cbn [negb].
  destruct Hdr as [[-> Hr]|[Hd ->]].
  - destruct (Nat.eqb_spec r 1) as [H|_]; [lia|]. cbn.
    now rewrite Nat.add_0_r.
  - destruct (Nat.eqb_spec d 1) as [H|_]; [lia|]. cbn.
    now rewrite Nat.mul_1_r.
Qed.

Lemma StronglySorted_snoc {A : Type} (R : A -> A -> Prop) (l : list A)
    (a : A) :
  StronglySorted R l -> Forall (fun y => R y a) l ->
  StronglySorted R (l ++ [a]).
Proof.
  induction 1 as [|x l Hl IH Hx]; intros Hall; cbn.
  - repeat constructor.
  - inversion Hall as [|? ? Hxa Hla]; subst. constructor.
    + now apply IH.
    + apply Forall_app. split; [assumption | now constructor].
Qed.

Lemma StronglySorted_rev {A : Type} (R : A -> A -> Prop) (l : list A) :
  StronglySorted R l -> StronglySorted (fun a b => R b a) (rev l).
Proof.
  induction 1 as [|x l Hl IH Hx]; cbn; [constructor|].
  apply StronglySorted_snoc; [assumption|]. now apply Forall_rev.
Qed.

Lemma enumerate_bound {A : Type} (l : list A) (i : nat) (x : A) :
  In (i, x) (enumerate l) -> i < length l.
Proof.
  intros H. apply in_combine_l, in_seq in H. lia.
Qed.

Section Ranking.

Context {E : Env}.

Hypothesis devices : 1 <= device_count.
Hypothesis scores : clip_ok.
Hypothesis sorting : argsort_ok.

Variable prompts : list String.string.
Variable clip_params : list ClipParams.

Local Abbreviation p := (length prompts).
Local Abbreviation texts := (concat (repeat prompts device_count)).

Lemma texts_per_device : length texts / device_count = p.
Proof.
  rewrite (length_concat_const p).
  - rewrite repeat_length, Nat.mul_comm. apply Nat.div_mul. lia.
  - apply Forall_forall. intros l Hl. now apply repeat_spec in Hl as ->.
Qed.

(** The regrouping [logits[:, i::p, i]] gathers, for every prompt [i],
    the logits of the images at positions [i], [i + p], ... *)
Lemma regroup (imgs : list Image) (r : nat) :
  1 <= p -> length imgs = device_count * (r * p) ->
  let logits := clip_logits texts imgs clip_params in
  sequence (map (fun i => Nd.slice_stride_col i p logits) (seq 0 p))
  = Ok (map (fun i => Nd.mk [device_count; r]
                        (prompt_scores logits p (device_count * r) i))
            (seq 0 p)).
Proof.
  intros Hp Hn logits. apply sequence_map_ok. intros i Hi.
  apply in_seq in Hi.
  destruct (scores texts imgs clip_params) as [Hsh Hwf].
  fold logits in Hsh, Hwf. unfold Nd.wf in Hwf.
  rewrite texts_per_device, Hn in Hsh.
  rewrite Nat.mul_comm, Nat.div_mul in Hsh by lia.
  rewrite Hsh in Hwf. cbn [Nd.numel fold_right] in Hwf.
  rewrite Nat.mul_1_r in Hwf.
  destruct logits as [sh dat]. cbn [Nd.shape Nd.data] in *. subst sh.
  rewrite (slice_stride_col_spec 0%Q) by (lia || assumption).
  do 2 f_equal. unfold prompt_scores, logit. cbn [Nd.data].
  rewrite <- (seq_flatten
                (fun k => nth ((k * p + i) * p + i) dat 0%Q)).
  f_equal. apply map_ext. intros j. apply map_ext. intros t.
  f_equal. ring.
Qed.

Lemma organize_scores_run (imgs : list Image) (r : nat) :
  2 <= p ->
  (device_count = 1 /\ 2 <= r) \/ (2 <= device_count /\ r = 1) ->
  length imgs = device_count * (r * p) ->
  let logits := clip_logits texts imgs clip_params in
  organize_scores p logits
  = Ok (Nd.mk [p; device_count * r]
          (concat (map (prompt_scores logits p (device_count * r))
                       (seq 0 p)))).
Proof.
  intros Hp Hdr Hn logits. unfold organize_scores. subst logits.
  rewrite (regroup imgs r) by (lia || assumption).
  rewrite (stack_same_shape _ [device_count; r]).
  - rewrite length_map, length_seq, map_map. cbn [Nd.data].
    now rewrite squeeze_matrix by assumption.
  - destruct (length prompts); [lia | discriminate].
  - apply Forall_map, Forall_forall. reflexivity.
Qed.

Lemma for_emits {X : Type} (imgs : list Image) (l : list X)
    (body : X -> M unit) (tr : X -> list event) :
  (forall x s, In x l -> images s = imgs ->
     body x s = (mkState (key s) (images s) (out s ++ tr x), Ok tt)) ->
  forall s, images s = imgs ->
    for_ l body s
    = (mkState (key s) (images s) (out s ++ flat_map tr l), Ok tt).
Proof.
  induction l as [|x l IH]; intros Hbody s Hs.
  - cbn. rewrite app_nil_r. now destruct s.
  - cbn [for_ flat_map]. unfold bind at 1.
    rewrite (Hbody x s) by (assumption || now left).
    rewrite IH by (assumption || (intros; apply Hbody; auto; now right)).
    cbn [key images out]. now rewrite app_assoc.
Qed.

Lemma prompt_scores_length (logits : Nd.ndarray Q) (b i : nat) :
  length (prompt_scores logits p b i) = b.
Proof. unfold prompt_scores. now rewrite length_map, length_seq. Qed.

Lemma prompt_scores_nth (logits : Nd.ndarray Q) (b i k : nat) :
  k < b ->
  nth k (prompt_scores logits p b i) 0%Q = logit logits p (k * p + i) i.
Proof.
  intros Hk. unfold prompt_scores.
  rewrite (nth_indep _ 0%Q (logit logits p (0 * p + i) i))
    by (now rewrite length_map, length_seq).
  rewrite (map_nth (fun k => logit logits p (k * p + i) i)).
  now rewrite seq_nth.
Qed.

Lemma show_ranked_run (logits : Nd.ndarray Q) (b i k : nat) (s : state) :
  i < p -> k < b -> length (images s) = b * p ->
  show_ranked p i (Nd.mk [b] (prompt_scores logits p b i)) (Nd.mk [] [k]) s
  = (mkState (key s) (images s)
       (out s ++ [EvDisplay (nth (k * p + i) (images s) blank_image);
                  EvPrint (MsgScore (logit logits p (k * p + i) i))]),
     Ok tt).
Proof.
  intros Hi Hk Hn. unfold show_ranked.
  unfold bind at 1. unfold get_images.
  unfold bind at 1. unfold lift at 1. cbn [Nd.item Nd.map Nd.shape Nd.data map].
  unfold bind at 1. unfold lift at 1. unfold list_getitem.
  rewrite (nth_error_nth' _ blank_image) by nia.
  unfold bind at 1. unfold emit at 1. cbn [key images out].
  unfold bind at 1. unfold lift at 1.
  unfold bind at 1. unfold lift at 1. unfold Nd.getitem.
  cbn [Nd.shape Nd.data Nd.numel fold_right].
  destruct (Nat.ltb_spec k b) as [_|H]; [|lia].
  rewrite (block_1 0%Q) by (now rewrite prompt_scores_length).
  unfold bind at 1. unfold lift at 1. cbn [Nd.item Nd.shape Nd.data].
  unfold emit. cbn [key images out].
  rewrite prompt_scores_nth by assumption.
  now rewrite <- app_assoc.
Qed.

Lemma for_map {X Y : Type} (g : X -> Y) (l : list X) (body : Y -> M unit) :
  for_ (map g l) body = for_ l (fun x => body (g x)).
Proof. induction l as [|x l IH]; cbn; [reflexivity | now rewrite IH]. Qed.

Lemma argsort_length (l : list Q) : length (argsort l) = length l.
Proof.
  destruct (sorting l) as [Hperm _].
  now rewrite (Permutation_length Hperm), length_seq.
Qed.

Lemma argsort_bound (l : list Q) (k : nat) :
  In k (argsort l) -> k < length l.
Proof.
  intros Hk. destruct (sorting l) as [Hperm _].
  apply (Permutation_in _ Hperm), in_seq in Hk. lia.
Qed.

Lemma ranked_order (sc : list Q) :
  Nd.reverse (Nd.argsort_last argsort (Nd.mk [length sc] sc))
  = Ok (Nd.mk [length sc] (rev (argsort sc))).
Proof.
  unfold Nd.argsort_last, Nd.rows. cbn [Nd.shape Nd.data rev app].
  unfold blocks at 1. cbn [Nd.numel fold_right seq map].
  unfold block at 1. cbn [Nat.mul skipn]. rewrite firstn_all.
  cbn [concat]. rewrite app_nil_r.
  unfold Nd.reverse. cbn [Nd.shape Nd.data Nd.numel fold_right].
  rewrite <- (argsort_length sc) at 2.
  rewrite blocks_singletons, <- map_rev, concat_singletons, map_id.
  reflexivity.
Qed.

Lemma display_prompt_run (logits : Nd.ndarray Q) (b i : nat)
    (prompt : String.string) (s : state) :
  i < p -> length (images s) = b * p ->
  display_prompt p
    (Nd.mk [p; b] (concat (map (prompt_scores logits p b) (seq 0 p))))
    (i, prompt) s
  = (mkState (key s) (images s)
       (out s ++ ranked_trace (images s) logits p b (i, prompt)),
     Ok tt).
Proof.
  intros Hi Hn. unfold display_prompt.
  unfold bind at 1. unfold emit at 1.
  unfold bind at 1. unfold lift at 1. unfold Nd.getitem.
  cbn [Nd.shape Nd.data Nd.numel fold_right key images out].
  destruct (Nat.ltb_spec i p) as [_|H]; [|lia].
  rewrite Nat.mul_1_r.
  rewrite block_of_concat.
  2:{ apply Forall_map, Forall_forall. intros j _.
      apply prompt_scores_length. }
  2:{ now rewrite length_map, length_seq. }
  rewrite (nth_indep _ [] (prompt_scores logits p b 0))
    by (now rewrite length_map, length_seq).
  rewrite (map_nth (prompt_scores logits p b)), seq_nth by assumption.
  cbn [plus].
  set (sc := prompt_scores logits p b i).
  assert (Hsc : length sc = b) by apply prompt_scores_length.
  unfold bind at 1. unfold lift at 1.
  rewrite <- Hsc at 1. rewrite ranked_order.
  unfold bind at 1. unfold lift at 1. rewrite unstack_mk.
  cbn [Nd.numel fold_right].
  replace (length sc) with (length (rev (argsort sc)))
    by (now rewrite length_rev, argsort_length).
  rewrite blocks_singletons, map_map.
  unfold bind at 1. rewrite for_map.
  rewrite (for_emits (images s) _ _
             (fun k => [EvDisplay (nth (k * p + i) (images s) blank_image);
                        EvPrint (MsgScore (logit logits p (k * p + i) i))])).
  - unfold emit. cbn [key images out]. unfold ranked_trace.
    cbn [fst snd]. unfold ranking. fold sc.
    rewrite <- !app_assoc. reflexivity.
  - intros k s' Hk Hs'.
    apply in_rev, argsort_bound in Hk. rewrite Hsc in Hk.
    unfold sc.
    rewrite show_ranked_run by (congruence || assumption).
    now rewrite Hs'.
  - reflexivity.
Qed.

Lemma rank_cells_run (r : nat) (s : state) :
  2 <= p ->
  (device_count = 1 /\ 2 <= r) \/ (2 <= device_count /\ r = 1) ->
  length (images s) = device_count * (r * p) ->
  let logits := clip_logits texts (images s) clip_params in
  rank_cells prompts clip_params s
  = (mkState (key s) (images s)
       (out s ++ EvClip texts (images s)
              :: flat_map (ranked_trace (images s) logits p
                             (device_count * r))
                          (enumerate prompts)),
     Ok tt).
Proof.
  intros Hp Hdr Hn logits. unfold rank_cells, score_cell.
  unfold bind at 1. unfold bind at 1. unfold get_images.
  unfold bind at 1. unfold p_clip, bind at 1, emit, ret.
  cbn [key images out]. unfold lift at 1.
  rewrite (organize_scores_run (images s) r) by assumption.
  fold logits. unfold display_cell.
  rewrite (for_emits (images s) _ _
             (ranked_trace (images s) logits p (device_count * r))).
  - cbn [key images out]. now rewrite <- app_assoc.
  - intros [i prompt] s' Hin Hs'. apply enumerate_bound in Hin.
    rewrite display_prompt_run by (rewrite ?Hs'; lia).
    now rewrite Hs'.
  - reflexivity.
Qed.

(** X2.  Where squeezing leaves one row of scores per prompt, the ranking
    cells show, for every prompt [i], exactly the images at positions
    [i], [i + p], ..., best score first, each with its own logit. *)
Lemma ranked_display (r : nat) (s : state) :
  2 <= p ->
  (device_count = 1 /\ 2 <= r) \/ (2 <= device_count /\ r = 1) ->
  length (images s) = device_count * (r * p) ->
  let logits := clip_logits texts (images s) clip_params in
  let b := device_count * r in
  snd (rank_cells prompts clip_params s) = Ok tt /\
  emitted (rank_cells prompts clip_params) s
  = EvClip texts (images s)
      :: flat_map (ranked_trace (images s) logits p b) (enumerate prompts) /\
  forall i, i < p ->
    Permutation (map (fun k => k * p + i) (ranking logits p b i))
                (map (fun t => i + t * p) (seq 0 b)) /\
    StronglySorted
      (fun k1 k2 => (logit logits p (k2 * p + i) i
                     <= logit logits p (k1 * p + i) i)%Q)
      (ranking logits p b i).
Proof.
  intros Hp Hdr Hn logits b.
  pose proof (rank_cells_run r s Hp Hdr Hn) as Hrun. cbv zeta in Hrun.
  fold logits in Hrun. fold b in Hrun.
  split; [now rewrite Hrun|]. split.
  { apply emitted_eq. now rewrite Hrun. }
  intros i Hi. unfold ranking.
  destruct (sorting (prompt_scores logits p b i)) as [Hperm Hsorted].
  rewrite prompt_scores_length in Hperm. split.
  - rewrite <- Permutation_rev.
    rewrite (Permutation_map (fun k => k * p + i) Hperm).
    erewrite map_ext; [reflexivity|]. intros t. cbn. lia.
  - apply StronglySorted_rev in Hsorted.
    assert (Hin : Forall (fun k => k < b)
                    (rev (argsort (prompt_scores logits p b i)))).
    { apply Forall_forall. intros k Hk. apply in_rev, argsort_bound in Hk.
      now rewrite prompt_scores_length in Hk. }
    revert Hsorted Hin.
    generalize (rev (argsort (prompt_scores logits p b i))) as l.
    induction l as [|k l IH]; intros Hs Hall; [constructor|].
    inversion Hs as [|? ? Hs' Hk]; subst.
    inversion Hall as [|? ? Hkb Hlb]; subst.
    constructor; [now apply IH|].
    rewrite Forall_forall in Hk, Hlb |- *. intros k' Hk'.
    specialize (Hk k' Hk'). cbn beta in Hk.
    rewrite !prompt_scores_nth in Hk by auto. exact Hk.
Qed.

(** C3.  With a single prompt on a single device, squeezing the
    regrouped scores removes the prompt axis as well, and the first
    prompt's entry is a scalar.  Its [argsort] is the one rank 0: with two
    or more images the cells print the prompt line, show the image at
    position 0 and raise when the scalar is indexed for the score; with
    fewer they raise right after the prompt line.  No score is printed
    and no other image is shown. *)
Theorem C3_single_prompt_raises (q : String.string) (s : state) :
  device_count = 1 -> prompts = [q] ->
  let shown :=
    match images s with
    | img :: _ :: _ => [EvDisplay img]
    | _ => []
    end in
  rank_cells prompts clip_params s
  = (mkState (key s) (images s)
       (out s ++ EvClip [q] (images s) :: EvPrint (MsgPrompt q) :: shown),
     Raised IndexError) /\
  displayed (emitted (rank_cells prompts clip_params) s)
  = match images s with
    | img :: _ :: _ => [img]
    | _ => []
    end.
Proof.
  intros Hd Hq shown.
  assert (Hrun : rank_cells prompts clip_params s
    = (mkState (key s) (images s)
         (out s ++ EvClip [q] (images s) :: EvPrint (MsgPrompt q) :: shown),
       Raised IndexError)).
  2:{ split; [exact Hrun|].
      rewrite (emitted_eq _ _
                 (EvClip [q] (images s) :: EvPrint (MsgPrompt q) :: shown))
        by now rewrite Hrun.
      subst shown. now destruct (images s) as [|img [|img' imgs]]. }
  destruct (scores texts (images s) clip_params) as [Hsh Hwf].
  unfold Nd.wf in Hwf. rewrite Hsh in Hwf. revert Hsh Hwf.
  unfold rank_cells, score_cell, organize_scores, display_cell.
  rewrite Hq, Hd. cbn [repeat concat app length seq map enumerate combine].
  rewrite !Nat.div_1_r.
  set (n := length (images s)).
  unfold bind at 1. unfold bind at 1. unfold get_images.
  unfold bind at 1. unfold p_clip, bind at 1, emit, ret.
  cbn [key images out]. fold n.
  destruct (clip_logits [q] (images s) clip_params) as [sh dat].
  cbn [Nd.shape Nd.data Nd.numel fold_right]. intros -> Hlen.
  rewrite <- (Nat.mul_1_r n) at 1.
  rewrite (slice_stride_col_spec 0%Q 1 n 1 1 0) by lia.
  cbn [sequence Nd.stack forallb Nd.shape Nd.data length map concat].
  unfold Nd.squeeze. cbn [Nd.shape Nd.data filter Nat.eqb negb].
  unfold lift at 1. cbn [for_]. unfold bind at 1.
  unfold display_prompt. unfold bind at 1. unfold emit at 1.
  cbn [key images out]. unfold bind at 1. unfold lift at 1.
  unfold Nd.getitem.
  assert (Hfew : n <= 1 -> shown = []).
  { subst shown n. destruct (images s) as [|img [|img' imgs]];
      cbn [length]; intros; [reflexivity | reflexivity | lia]. }
  destruct (Nat.eqb_spec n 1) as [H1|H1]; cbn [negb Nd.shape].
  - rewrite Hfew by lia. now rewrite <- app_assoc.
  - destruct (Nat.ltb_spec 0 n) as [H0|H0].
    + assert (Himgs : exists img img' imgs, images s = img :: img' :: imgs).
      { subst n. destruct (images s) as [|img [|img' imgs]];
          cbn [length] in *; [lia | lia | eauto]. }
      destruct Himgs as [img [img' [imgs Himgs]]].
      subst shown. rewrite Himgs.
      unfold bind at 1. unfold lift at 1.
      cbn [Nd.argsort_last Nd.shape Nd.reverse Nd.data Nd.numel fold_right].
      unfold blocks, block. cbn [seq map Nat.mul skipn firstn rev concat app].
      unfold bind at 1. unfold lift at 1.
      cbn [Nd.unstack Nd.shape Nd.data Nd.numel fold_right].
      unfold blocks, block. cbn [seq map Nat.mul skipn firstn for_].
      unfold bind at 1. unfold bind at 1. unfold show_ranked.
      unfold bind at 1. unfold get_images. cbn [images].
      unfold bind at 1. unfold lift at 1.
      cbn [Nd.item Nd.map Nd.shape Nd.data map Nat.mul Nat.add].
      unfold bind, lift, emit, ret.
      cbn [list_getitem nth_error Nd.getitem Nd.shape key images out].
      rewrite <- !app_assoc. reflexivity.
    + rewrite Hfew by lia. now rewrite <- app_assoc.
Qed.

End Ranking.

(** ** Insertion sort of positions is an [argsort] *)

Lemma insert_idx_perm (l : list Q) (i : nat) (sorted : list nat) :
  Permutation (insert_idx l i sorted) (i :: sorted).
Proof.
  induction sorted as [|j t IH]; cbn [insert_idx]; [reflexivity|].
  destruct (Qle_bool (nth i l 0%Q) (nth j l 0%Q)); [reflexivity|].
  rewrite IH. apply perm_swap.
Qed.

Lemma insert_idx_sorted (l : list Q) (i : nat) (sorted : list nat) :
  StronglySorted (fun a b => (nth a l 0 <= nth b l 0)%Q) sorted ->
  StronglySorted (fun a b => (nth a l 0 <= nth b l 0)%Q)
                 (insert_idx l i sorted).
Proof.
  induction 1 as [|j t Ht IH Hj]; cbn [insert_idx].
  - repeat constructor.
  - destruct (Qle_bool (nth i l 0%Q) (nth j l 0%Q)) eqn:Hle.
    + apply Qle_bool_iff in Hle. constructor.
      * now constructor.
      * constructor; [assumption|].
        revert Hj. apply Forall_impl. intros x Hx.
        now apply Qle_trans with (nth j l 0%Q).
    + assert (Hji : (nth j l 0 <= nth i l 0)%Q).
      { apply Qlt_le_weak, Qnot_le_lt. intros H.
        apply Qle_bool_iff in H. congruence. }
      constructor; [assumption|].
      apply (Permutation_Forall (Permutation_sym (insert_idx_perm l i t))).
      now constructor.
Qed.

Lemma toy_argsort_ok (d : nat) : argsort_ok (E := toy d).
Proof.
  intros l. cbn [argsort toy]. unfold insertion_argsort.
  generalize (seq 0 (length l)) as idxs. intros idxs. split.
  - induction idxs as [|i idxs IH]; cbn [fold_right]; [reflexivity|].
    rewrite insert_idx_perm. now constructor.
  - induction idxs as [|i idxs IH]; cbn [fold_right]; [constructor|].
    now apply insert_idx_sorted.
Qed.

(** ** The ranking cells on the small instance *)

Lemma C3_single_prompt_raises_witness :
  snd (rank_cells (E := toy 1) ["sunset over a lake"%string] [tt]
         (toy_gallery 1 8))
  = Raised IndexError /\
  displayed (emitted (rank_cells (E := toy 1) ["sunset over a lake"%string]
                        [tt]) (toy_gallery 1 8)) = [placeholder 0].
Proof.
  destruct (C3_single_prompt_raises (E := toy 1) (toy_devices 1 ltac:(lia))
              (toy_clip_ok 1) ["sunset over a lake"%string] [tt]
              "sunset over a lake"%string (toy_gallery 1 8)
              eq_refl eq_refl) as [H1 H2].
  split; [now rewrite H1 | exact H2].
Defined.

(** Two prompts, one device, three rounds: each prompt's images, best
    first. *)
Example ranked_display_toy :
  displayed (emitted (rank_cells (E := toy 1) toy_prompts [tt])
                     (toy_gallery 1 6))
  = map placeholder [2; 4; 0; 3; 5; 1].
Proof. vm_compute. reflexivity. Qed.

Lemma ranked_display_witness :
  snd (rank_cells (E := toy 1) toy_prompts [tt] (toy_gallery 1 6)) = Ok tt.
Proof.
  apply (ranked_display (E := toy 1) (toy_devices 1 ltac:(lia))
           (toy_clip_ok 1) (toy_argsort_ok 1) toy_prompts [tt] 3
           (toy_gallery 1 6)).
  - cbn. lia.
  - left. split; [reflexivity | lia].
  - reflexivity.
Defined.

(** Two devices and two rounds: the rows of ranks are no list index. *)
Example ranked_display_two_by_two :
  snd (rank_cells (E := toy 2) toy_prompts [tt; tt] (toy_gallery 2 8))
  = Raised TypeError.
Proof. vm_compute. reflexivity. Qed.

(** * Further properties of the notebook *)

(** ** The ranking cells only report *)

Section Reporting.

Context {E : Env}.

Lemma reporting_lift {A : Type} (o : outcome A) : reporting (lift o).
Proof. intros s. now split. Qed.

Lemma reporting_emit (ev : event) : reporting (emit ev).
Proof. intros s. now split. Qed.

Lemma reporting_bind {A B : Type} (m : M A) (f : A -> M B) :
  reporting m -> (forall a, reporting (f a)) -> reporting (bind m f).
Proof.
  intros Hm Hf s. unfold bind. destruct (Hm s) as [Hk Hi].
  destruct (m s) as [s' [a|e]]; cbn [fst] in *.
  - destruct (Hf a s') as [Hk' Hi']. split; congruence.
  - now split.
Qed.

Lemma reporting_for {X : Type} (l : list X) (body : X -> M unit) :
  (forall x, reporting (body x)) -> reporting (for_ l body).
Proof.
  intros Hbody. induction l as [|x l IH]; cbn [for_].
  - intros s. now split.
  - apply reporting_bind; [apply Hbody | intros _; exact IH].
Qed.

Lemma reporting_show_ranked (p i : nat) (logits_i : Nd.ndarray Q)
    (idx : Nd.ndarray nat) :
  reporting (show_ranked p i logits_i idx).
Proof.
  unfold show_ranked.
  apply reporting_bind; [intros s; now split|]. intros imgs.
  repeat (apply reporting_bind;
          [first [apply reporting_lift | apply reporting_emit]|]; intros ?).
  apply reporting_emit.
Qed.

Lemma reporting_display_prompt (p : nat) (logits : Nd.ndarray Q)
    (ip : nat * String.string) :
  reporting (display_prompt p logits ip).
Proof.
  destruct ip as [i prompt]. unfold display_prompt.
  apply reporting_bind; [apply reporting_emit|]. intros _.
  apply reporting_bind; [apply reporting_lift|]. intros logits_i.
  apply reporting_bind; [apply reporting_lift|]. intros order.
  apply reporting_bind; [apply reporting_lift|]. intros idxs.
  apply reporting_bind; [|intros _; apply reporting_emit].
  apply reporting_for. intros idx. apply reporting_show_ranked.
Qed.

(** X4.  The ranking cells leave the running key and the accumulated
    images untouched, for every prompt list, every image list and every
    behaviour of the scorer, whether they finish or raise. *)
Theorem X4_ranking_only_reports (prompts : list String.string)
    (clip_params : list ClipParams) (s : state) :
  key (fst (rank_cells prompts clip_params s)) = key s /\
  images (fst (rank_cells prompts clip_params s)) = images s.
Proof.
  revert s. change (reporting (rank_cells prompts clip_params)).
  unfold rank_cells. apply reporting_bind.
  - unfold score_cell.
    apply reporting_bind; [intros s; now split|]. intros imgs.
    apply reporting_bind; [|intros logits; apply reporting_lift].
    unfold p_clip. apply reporting_bind; [apply reporting_emit|].
    intros _ s. now split.
  - intros logits. unfold display_cell. apply reporting_for.
    intros ip. apply reporting_display_prompt.
Qed.

End Reporting.

(** ** The regrouping, and where the display gives up *)

Lemma squeeze_cube {A : Type} (p d r : nat) (l : list A) :
  2 <= p -> 2 <= d -> 2 <= r ->
  Nd.squeeze (Nd.mk [p; d; r] l) = Nd.mk [p; d; r] l.
Proof.
  intros Hp Hd Hr. unfold Nd.squeeze. cbn [Nd.shape Nd.data filter].
  destruct (Nat.eqb_spec p 1); [lia|].
  destruct (Nat.eqb_spec d 1); [lia|].
  destruct (Nat.eqb_spec r 1); [lia|]. reflexivity.
Qed.

Lemma squeeze_column {A : Type} (p : nat) (l : list A) :
  2 <= p -> Nd.squeeze (Nd.mk [p; 1; 1] l) = Nd.mk [p] l.
Proof.
  intros Hp. unfold Nd.squeeze. cbn [Nd.shape Nd.data filter Nat.eqb negb].
  destruct (Nat.eqb_spec p 1); [lia|]. reflexivity.
Qed.

Section RankingEdges.

Context {E : Env}.

Hypothesis devices : 1 <= device_count.
Hypothesis scores : clip_ok.

Variable prompts : list String.string.
Variable clip_params : list ClipParams.

Local Abbreviation p := (length prompts).
Local Abbreviation texts := (concat (repeat prompts device_count)).

Lemma slice_of_logits (imgs : list Image) (r i : nat) :
  i < p -> length imgs = device_count * (r * p) ->
  let logits := clip_logits texts imgs clip_params in
  Nd.slice_stride_col i p logits
  = Ok (Nd.mk [device_count; r]
          (prompt_scores logits p (device_count * r) i)).
Proof.
  intros Hi Hn logits.
  pose proof (regroup devices scores prompts clip_params imgs r
                ltac:(lia) Hn) as Hall.
  cbv zeta in Hall. fold logits in Hall.
  assert (Hin : In i (seq 0 p)) by (apply in_seq; lia).
  revert Hall Hin. generalize (seq 0 p) as l.
  induction l as [|x l IH]; intros Hall Hin; [contradiction|].
  cbn [map sequence] in Hall.
  destruct (Nd.slice_stride_col x p logits) as [a|e] eqn:Hx;
    [|discriminate].
  destruct (sequence (map (fun i0 => Nd.slice_stride_col i0 p logits) l))
    as [rest|e] eqn:Hrest; [|discriminate].
  injection Hall as Ha Hl.
  destruct Hin as [->|Hin]; [now rewrite Hx, Ha|].
  apply IH; [now rewrite Hl | assumption].
Qed.

(** X1.  For every prompt count, device count and round count the slice
    [logits[:, i::p, i]] has one row per device and one column per
    round, and holds, in order, the logits against prompt [i] of the
    images at flat positions [i], [i + p], [i + 2p], ... *)
Theorem X1_regroup_positions (imgs : list Image) (r i : nat) :
  i < p -> length imgs = device_count * (r * p) ->
  let logits := clip_logits texts imgs clip_params in
  exists a,
    Nd.slice_stride_col i p logits = Ok a /\
    Nd.shape a = [device_count; r] /\
    length (Nd.data a) = device_count * r /\
    forall k, k < device_count * r ->
      nth k (Nd.data a) 0%Q = logit logits p (i + k * p) i.
Proof.
  intros Hi Hn logits.
  exists (Nd.mk [device_count; r]
            (prompt_scores logits p (device_count * r) i)).
  split; [exact (slice_of_logits imgs r i Hi Hn)|].
  cbn [Nd.shape Nd.data]. split; [reflexivity|].
  unfold prompt_scores. rewrite length_map, length_seq.
  split; [reflexivity|]. intros k Hk.
  rewrite (nth_indep _ 0%Q (logit logits p (0 * p + i) i))
    by (now rewrite length_map, length_seq).
  rewrite (map_nth (fun k => logit logits p (k * p + i) i)).
  rewrite seq_nth by assumption. cbn [plus]. f_equal. lia.
Qed.

Lemma organize_scores_any (imgs : list Image) (r : nat) :
  1 <= p -> length imgs = device_count * (r * p) ->
  let logits := clip_logits texts imgs clip_params in
  organize_scores p logits
  = Ok (Nd.squeeze
          (Nd.mk [p; device_count; r]
             (concat (map (prompt_scores logits p (device_count * r))
                          (seq 0 p))))).
Proof.
  intros Hp Hn logits. unfold organize_scores. subst logits.
  rewrite (regroup devices scores prompts clip_params imgs r) by assumption.
  rewrite (stack_same_shape _ [device_count; r]).
  - now rewrite length_map, length_seq, map_map.
  - destruct (length prompts); [lia | discriminate].
  - apply Forall_map, Forall_forall. reflexivity.
Qed.

(** X5.  With two or more prompts on two or more devices after two or
    more rounds, squeezing removes no axis, the ranks of a prompt form a
    matrix, and using a row of it as a list index raises: the ranking
    cells print the first prompt and stop with a [TypeError] before any
    image is shown. *)
Theorem X5_matrix_of_ranks_raises (q : String.string)
    (rest : list String.string) (r : nat) (s : state) :
  prompts = q :: rest -> 1 <= length rest ->
  2 <= device_count -> 2 <= r ->
  length (images s) = device_count * (r * p) ->
  rank_cells prompts clip_params s
  = (mkState (key s) (images s)
       (out s ++ [EvClip texts (images s); EvPrint (MsgPrompt q)]),
     Raised TypeError) /\
  displayed (emitted (rank_cells prompts clip_params) s) = [].
Proof.
  intros Hq Hrest Hd Hr Hn.
  assert (Hp : 2 <= p) by (rewrite Hq; cbn; lia).
  assert (Hrun : rank_cells prompts clip_params s
    = (mkState (key s) (images s)
         (out s ++ [EvClip texts (images s); EvPrint (MsgPrompt q)]),
       Raised TypeError)).
  2:{ split; [exact Hrun|].
      rewrite (emitted_eq _ _ [EvClip texts (images s);
                                EvPrint (MsgPrompt q)])
        by now rewrite Hrun.
      reflexivity. }
  unfold rank_cells, score_cell.
  unfold bind at 1. unfold bind at 1. unfold get_images.
  unfold bind at 1. unfold p_clip, bind at 1, emit, ret.
  cbn [key images out]. unfold lift at 1.
  rewrite (organize_scores_any (images s) r) by (lia || assumption).
  rewrite squeeze_cube by assumption.
  assert (Henum : exists others, enumerate prompts = (0, q) :: others).
  { rewrite Hq. unfold enumerate. cbn [length seq combine]. eauto. }
  destruct Henum as [others Henum].
  unfold display_cell. rewrite Henum. cbn [for_].
  unfold bind at 1. unfold display_prompt.
  unfold bind at 1. unfold emit at 1. cbn [key images out].
  unfold bind at 1. unfold lift at 1. unfold Nd.getitem.
  cbn [Nd.shape Nd.data].
  destruct (Nat.ltb_spec 0 p) as [_|H]; [|lia].
  unfold bind at 1. unfold lift at 1.
  unfold Nd.argsort_last, Nd.reverse. cbn [Nd.shape Nd.data].
  unfold bind at 1. unfold lift at 1. rewrite unstack_mk.
  destruct device_count as [|d']; [lia|].
  rewrite blocks_S. cbn [map for_].
  unfold bind at 1. unfold bind at 1. unfold show_ranked.
  unfold bind at 1. unfold get_images.
  unfold bind at 1. unfold lift at 1.
  cbn [Nd.item Nd.map Nd.shape Nd.data].
  now rewrite <- app_assoc.
Qed.

(** X6.  With two or more prompts and a single image for each on a
    single device, squeezing leaves a vector of scores and a prompt's
    entry is a scalar.  Its [argsort] is the one rank 0, so the ranking
    cells print the first prompt, show the image at position 0 and raise
    an [IndexError] when the scalar is indexed for the score: no score is
    printed and no later prompt is reached. *)
Theorem X6_single_image_per_prompt_raises (q : String.string)
    (rest : list String.string) (s : state) :
  prompts = q :: rest -> 1 <= length rest ->
  device_count = 1 -> length (images s) = p ->
  rank_cells prompts clip_params s
  = (mkState (key s) (images s)
       (out s ++ [EvClip texts (images s); EvPrint (MsgPrompt q);
                  EvDisplay (nth 0 (images s) blank_image)]),
     Raised IndexError) /\
  displayed (emitted (rank_cells prompts clip_params) s)
  = [nth 0 (images s) blank_image].
Proof.
  intros Hq Hrest Hd Hn.
  assert (Hp : 2 <= p) by (rewrite Hq; cbn; lia).
  assert (Hrun : rank_cells prompts clip_params s
    = (mkState (key s) (images s)
         (out s ++ [EvClip texts (images s); EvPrint (MsgPrompt q);
                    EvDisplay (nth 0 (images s) blank_image)]),
       Raised IndexError)).
  2:{ split; [exact Hrun|].
      rewrite (emitted_eq _ _ [EvClip texts (images s);
                                EvPrint (MsgPrompt q);
                                EvDisplay (nth 0 (images s) blank_image)])
        by now rewrite Hrun.
      reflexivity. }
  unfold rank_cells, score_cell.
  unfold bind at 1. unfold bind at 1. unfold get_images.
  unfold bind at 1. unfold p_clip, bind at 1, emit, ret.
  cbn [key images out]. unfold lift at 1.
  rewrite (organize_scores_any (images s) 1) by (rewrite ?Hd; lia).
  rewrite Hd. rewrite squeeze_column by assumption.
  assert (Henum : exists others, enumerate prompts = (0, q) :: others).
  { rewrite Hq. unfold enumerate. cbn [length seq combine]. eauto. }
  destruct Henum as [others Henum].
  unfold display_cell. rewrite Henum. cbn [for_].
  unfold bind at 1. unfold display_prompt.
  unfold bind at 1. unfold emit at 1. cbn [key images out].
  unfold bind at 1. unfold lift at 1. unfold Nd.getitem at 1.
  cbn [Nd.shape Nd.data].
  destruct (Nat.ltb_spec 0 p) as [_|H]; [|lia].
  unfold bind at 1. unfold lift at 1.
  cbn [Nd.argsort_last Nd.reverse Nd.shape Nd.data Nd.numel fold_right].
  unfold blocks at 1. unfold block at 1.
  cbn [seq map Nat.mul skipn firstn rev concat app].
  unfold bind at 1. unfold lift at 1.
  cbn [Nd.unstack Nd.shape Nd.data Nd.numel fold_right].
  unfold blocks at 1. unfold block at 1.
  cbn [seq map Nat.mul skipn firstn for_].
  unfold bind at 1. unfold bind at 1. unfold show_ranked.
  unfold bind at 1. unfold get_images. cbn [images].
  unfold bind at 1. unfold lift at 1.
  cbn [Nd.item Nd.map Nd.shape Nd.data map Nat.mul Nat.add].
  unfold bind at 1. unfold lift at 1. unfold list_getitem.
  rewrite (nth_error_nth' _ blank_image) by lia.
  unfold bind, lift, emit, ret.
  cbn [Nd.getitem Nd.shape key images out].
  rewrite <- !app_assoc. reflexivity.
Qed.

End RankingEdges.

(** ** Every image is ranked once *)

Lemma map_nth_seq {A : Type} (d0 : A) (l : list A) :
  map (fun i => nth i l d0) (seq 0 (length l)) = l.
Proof.
  induction l as [|x l IH]; [reflexivity|].
  cbn [length seq map nth]. f_equal.
  rewrite <- seq_shift, map_map. exact IH.
Qed.

Lemma map_flat_map_comm {A B C : Type} (g : B -> C) (f : A -> list B)
    (l : list A) :
  map g (flat_map f l) = flat_map (fun x => map g (f x)) l.
Proof.
  induction l as [|x l IH]; [reflexivity|].
  cbn [flat_map]. now rewrite map_app, IH.
Qed.

Lemma Permutation_flat_map_pointwise {A B : Type} (f g : A -> list B)
    (l : list A) :
  (forall x, In x l -> Permutation (f x) (g x)) ->
  Permutation (flat_map f l) (flat_map g l).
Proof.
  induction l as [|x l IH]; intros H; [constructor|].
  cbn [flat_map]. apply Permutation_app.
  - apply H. now left.
  - apply IH. intros y Hy. apply H. now right.
Qed.

Lemma Permutation_flat_map_cons {A B : Type} (g : A -> B)
    (h : A -> list B) (l : list A) :
  Permutation (flat_map (fun k => g k :: h k) l) (map g l ++ flat_map h l).
Proof.
  induction l as [|k l IH]; [constructor|].
  cbn [flat_map map app]. constructor.
  rewrite IH, !app_assoc. apply Permutation_app_tail, Permutation_app_comm.
Qed.

(** Rows first or columns first: the same entries. *)
Lemma Permutation_flat_map_swap {A B C : Type} (f : A -> B -> C)
    (la : list A) (lb : list B) :
  Permutation (flat_map (fun a => map (f a) lb) la)
              (flat_map (fun b => map (fun a => f a b) la) lb).
Proof.
  induction la as [|a la IH]; cbn [flat_map map].
  - induction lb as [|b lb IHb]; [constructor | exact IHb].
  - rewrite IH. symmetry.
    apply (Permutation_flat_map_cons (f a)
             (fun b => map (fun a0 => f a0 b) la)).
Qed.

Lemma flat_map_enumerate {A B : Type} (g : nat -> list B) (l : list A) :
  flat_map (fun ip => g (fst ip)) (enumerate l)
  = flat_map g (seq 0 (length l)).
Proof.
  unfold enumerate. generalize 0 as start.
  induction l as [|x l IH]; intros start; [reflexivity|].
  cbn [length seq combine flat_map fst]. now rewrite IH.
Qed.

Section RankedOnce.

Context {E : Env}.

Hypothesis devices : 1 <= device_count.
Hypothesis scores : clip_ok.
Hypothesis sorting : argsort_ok.

Variable prompts : list String.string.
Variable clip_params : list ClipParams.

Local Abbreviation p := (length prompts).

Lemma displayed_app (t1 t2 : list event) :
  displayed (t1 ++ t2) = displayed t1 ++ displayed t2.
Proof. unfold displayed. apply flat_map_app. Qed.

Lemma displayed_flat_map {X : Type} (f : X -> list event) (l : list X) :
  displayed (flat_map f l) = flat_map (fun x => displayed (f x)) l.
Proof.
  induction l as [|x l IH]; [reflexivity|].
  cbn [flat_map]. now rewrite displayed_app, IH.
Qed.

Lemma displayed_ranked_trace (imgs : list Image) (logits : Nd.ndarray Q)
    (b : nat) (ip : nat * String.string) :
  displayed (ranked_trace imgs logits p b ip)
  = map (fun pos => nth pos imgs blank_image)
        (map (fun k => k * p + fst ip) (ranking logits p b (fst ip))).
Proof.
  unfold ranked_trace.
  change (displayed (EvPrint ?m :: ?t)) with (displayed t).
  rewrite displayed_app. cbn [displayed flat_map app]. rewrite app_nil_r.
  rewrite map_map.
  generalize (ranking logits p b (fst ip)) as l.
  induction l as [|k l IH]; [reflexivity|].
  cbn [flat_map map app]. unfold displayed in *. cbn [flat_map app].
  now rewrite IH.
Qed.

(** X3.  Where the ranking cells run through (two or more prompts, and
    either one device with two or more rounds or several devices with one
    round), they display every accumulated image exactly once: the
    positions shown, prompt after prompt, are a rearrangement of all
    positions of the list. *)
Theorem X3_every_image_ranked_once (r : nat) (s : state) :
  2 <= p ->
  (device_count = 1 /\ 2 <= r) \/ (2 <= device_count /\ r = 1) ->
  length (images s) = device_count * (r * p) ->
  exists positions,
    displayed (emitted (rank_cells prompts clip_params) s)
    = map (fun pos => nth pos (images s) blank_image) positions /\
    Permutation positions (seq 0 (length (images s))) /\
    Permutation (displayed (emitted (rank_cells prompts clip_params) s))
                (images s).
Proof.
  intros Hp Hdr Hn.
  set (logits := clip_logits (concat (repeat prompts device_count))
                   (images s) clip_params).
  set (b := device_count * r).
  set (positions :=
         flat_map (fun i => map (fun k => k * p + i) (ranking logits p b i))
                  (seq 0 p)).
  assert (Hshown : displayed (emitted (rank_cells prompts clip_params) s)
                   = map (fun pos => nth pos (images s) blank_image)
                         positions).
  { rewrite (emitted_eq _ _ _
               (f_equal out (f_equal fst
                  (rank_cells_run devices scores sorting prompts
                     clip_params r s Hp Hdr Hn)))).
    change (displayed (EvClip ?t ?i :: ?tr)) with (displayed tr).
    fold logits b. rewrite displayed_flat_map.
    erewrite flat_map_ext
      by (intros ip; apply displayed_ranked_trace).
    rewrite (flat_map_enumerate
               (fun i => map (fun pos => nth pos (images s) blank_image)
                           (map (fun k => k * p + i)
                                (ranking logits p b i)))).
    unfold positions. now rewrite map_flat_map_comm. }
  assert (Hperm : Permutation positions (seq 0 (length (images s)))).
  { unfold positions.
    rewrite (Permutation_flat_map_pointwise _
               (fun i => map (fun k => k * p + i) (seq 0 b))).
    - rewrite (Permutation_flat_map_swap (fun i k => k * p + i)).
      rewrite flat_map_concat_map.
      rewrite (seq_flatten (fun x => x) b p), map_id.
      replace (length (images s)) with (b * p) by (subst b; lia).
      reflexivity.
    - intros i _. apply Permutation_map. unfold ranking.
      rewrite <- Permutation_rev.
      destruct (sorting (prompt_scores logits p b i)) as [Hsort _].
      unfold prompt_scores in Hsort at 2.
      now rewrite length_map, length_seq in Hsort. }
  exists positions. split; [exact Hshown|]. split; [exact Hperm|].
  rewrite Hshown, (Permutation_map _ Hperm).
  now rewrite map_nth_seq.
Qed.

End RankedOnce.

(** ** More on the generation cell *)

Lemma running_keys_app {E : Env} (a b : nat) (k : Key) :
  running_keys (a + b) k
  = running_keys a k ++ running_keys b (final_key a k).
Proof.
  revert k. induction a as [|a IH]; intros k; [reflexivity|].
  cbn [plus running_keys final_key app]. now rewrite IH.
Qed.

Lemma final_key_add {E : Env} (a b : nat) (k : Key) :
  final_key (a + b) k = final_key b (final_key a k).
Proof.
  revert k. induction a as [|a IH]; intros k; [reflexivity|].
  cbn [plus final_key]. apply IH.
Qed.

Section GenerationMore.

Context {E : Env}.

Variable max_length : nat.
Hypothesis devices : 1 <= device_count.
Hypothesis shards : shard_ok.
Hypothesis sequences : generate_ok max_length.
Hypothesis decodes : decode_ok.

Variable prompts : list String.string.
Variable model_params : Params.
Variable vqgan_params : VqParams.
Variable gen_top_k : option Z.
Variables gen_top_p temperature cond_scale : option Q.

Local Abbreviation gen n :=
  (generation prompts model_params vqgan_params n gen_top_k
     gen_top_p temperature cond_scale).
Local Abbreviation rimages :=
  (round_images prompts model_params vqgan_params gen_top_k gen_top_p
     temperature cond_scale max_length).
Local Abbreviation rtrace :=
  (round_trace prompts model_params vqgan_params gen_top_k gen_top_p
     temperature cond_scale max_length).
Local Abbreviation rdecoded :=
  (round_decoded prompts model_params vqgan_params gen_top_k gen_top_p
     temperature cond_scale max_length).
Local Abbreviation run :=
  (generation_run max_length devices shards sequences decodes prompts
     model_params vqgan_params gen_top_k gen_top_p temperature cond_scale).

Lemma round_image_rgb (k : Key) (img : Image) :
  In img (rimages k) -> rgb_image img.
Proof.
  intros Hin. unfold round_images in Hin. apply in_map_iff in Hin.
  destruct Hin as [i [<- Hi]]. apply in_seq in Hi.
  unfold rgb_image, to_image, fromarray, Nd.map.
  cbn [Nd.shape Nd.data]. split; [reflexivity|]. split.
  - unfold Nd.wf. cbn [Nd.shape Nd.data].
    change (Nd.numel [256; 256; 3]) with image_size.
    rewrite !length_map. apply block_length.
    rewrite length_map.
    rewrite (round_decoded_length max_length devices decodes).
    nia.
  - rewrite map_map. apply Forall_map, Forall_forall. intros x _.
    apply (to_uint8_byte devices).
Qed.

Lemma displayed_round (k : Key) : displayed (rtrace k) = rimages k.
Proof.
  unfold round_trace. rewrite displayed_app. cbn [displayed flat_map app].
  generalize (rimages k) as l. induction l as [|img l IH]; [reflexivity|].
  cbn [flat_map app]. unfold displayed in *. cbn [flat_map app].
  now rewrite IH.
Qed.

(** X9.  After the generation cell every accumulated image is a complete
    256 x 256 x 3 array of bytes, and the images displayed while the
    cell ran are exactly the accumulated list, in the same order. *)
Theorem X9_images_complete_and_shown (n : Z) (s : state) :
  Forall rgb_image (images (fst (gen n s))) /\
  displayed (emitted (gen n) s) = images (fst (gen n s)).
Proof.
  rewrite (emitted_generation max_length devices shards sequences decodes).
  rewrite run. cbn [fst images]. split.
  - apply Forall_concat, Forall_map, Forall_forall. intros k _.
    apply Forall_forall. intros img. apply round_image_rgb.
  - change (displayed (EvPrint ?m :: ?t)) with (displayed t).
    generalize (running_keys (n_iter n) (key s)) as ks.
    induction ks as [|k ks IH]; [reflexivity|].
    cbn [map concat]. now rewrite displayed_app, displayed_round, IH.
Qed.

(** X8.  Running the generation cell a second time starts the image list
    afresh but carries the key on: the two runs split the same keys and
    end on the same key as a single run with as many rounds as both
    together, and the images left are the last rounds' images of that
    single run. *)
Theorem X8_rerun_continues_keys (n1 n2 n : Z) (s : state) :
  n_iter n = n_iter n1 + n_iter n2 ->
  let twice := bind (gen n1) (fun _ => gen n2) in
  snd (twice s) = Ok tt /\
  key_uses (emitted twice s) = key_uses (emitted (gen n) s) /\
  key (fst (twice s)) = key (fst (gen n s)) /\
  images (fst (twice s))
  = skipn (n_iter n1 * (device_count * length prompts))
          (images (fst (gen n s))) /\
  length (images (fst (twice s)))
  = n_iter n2 * (device_count * length prompts).
Proof.
  intros Hn twice.
  assert (Htwice : twice s
    = (mkState (final_key (n_iter n2) (final_key (n_iter n1) (key s)))
         (concat (map rimages
                    (running_keys (n_iter n2)
                       (final_key (n_iter n1) (key s)))))
         (out s
          ++ (EvPrint (MsgPrompts prompts)
                :: concat (map rtrace (running_keys (n_iter n1) (key s))))
          ++ EvPrint (MsgPrompts prompts)
               :: concat (map rtrace
                            (running_keys (n_iter n2)
                               (final_key (n_iter n1) (key s))))),
       Ok tt)).
  { unfold twice, bind. rewrite run, run. cbn [key images out].
    now rewrite <- app_assoc. }
  assert (Hkeys : forall ks,
            key_uses (concat (map rtrace ks))
            = flat_map (fun k => [inl k; inr (round_keys k)]) ks).
  { induction ks as [|k ks IH]; [reflexivity|].
    cbn [map concat flat_map].
    now rewrite key_uses_app, key_uses_round, IH. }
  split; [now rewrite Htwice|]. split.
  { rewrite (emitted_eq _ _ _ (f_equal out (f_equal fst Htwice))).
    rewrite (key_uses_generation max_length devices shards sequences decodes).
    rewrite Hn, running_keys_app, flat_map_app.
    rewrite key_uses_app.
    change (key_uses (EvPrint ?m :: ?t)) with (key_uses t).
    now rewrite !Hkeys. }
  split.
  { rewrite Htwice, run. cbn [fst key]. now rewrite Hn, final_key_add. }
  assert (Hlen : forall ks, length (concat (map rimages ks))
                            = length ks * (device_count * length prompts)).
  { intros ks.
    rewrite (length_concat_const (device_count * length prompts)).
    - now rewrite length_map.
    - apply Forall_map, Forall_forall. intros k _.
      apply round_images_length. }
  split.
  - rewrite Htwice, run. cbn [fst images].
    rewrite Hn, running_keys_app, map_app, concat_app.
    rewrite skipn_app, skipn_all2 by (rewrite Hlen, running_keys_length; lia).
    rewrite Hlen, running_keys_length, Nat.sub_diag. reflexivity.
  - rewrite Htwice. cbn [fst images].
    now rewrite Hlen, running_keys_length.
Qed.

End GenerationMore.

(** ** Where an image sits in the accumulated list *)

Lemma nth_error_concat_const {A : Type} (n t i : nat)
    (ll : list (list A)) (l : list A) :
  Forall (fun b => length b = n) ll ->
  nth_error ll t = Some l -> i < n ->
  nth_error (concat ll) (t * n + i) = nth_error l i.
Proof.
  intros Hall. revert t. induction Hall as [|b ll Hb _ IH]; intros t Ht Hi.
  - now destruct t.
  - destruct t as [|t]; cbn [nth_error concat] in *.
    + injection Ht as ->. rewrite nth_error_app1 by lia. reflexivity.
    + rewrite nth_error_app2 by (cbn; lia).
      replace (S t * n + i - length b) with (t * n + i) by (cbn; lia).
      now apply IH.
Qed.

Lemma block_block {A : Type} (n p j i : nat) (l : list A) :
  i < p -> block n i (block (p * n) j l) = block n (j * p + i) l.
Proof.
  intros Hi. unfold block.
  rewrite skipn_firstn_comm, firstn_firstn, skipn_skipn.
  f_equal; [nia|]. f_equal. lia.
Qed.

Lemma block_app_left {A : Type} (n i p : nat) (g rest : list A) :
  length g = p * n -> i < p -> block n i (g ++ rest) = block n i g.
Proof.
  intros Hg Hi. unfold block.
  rewrite skipn_app, firstn_app, length_skipn.
  replace (i * n - length g) with 0 by nia.
  replace (n - (length g - i * n)) with 0 by nia.
  cbn [skipn firstn]. now rewrite app_nil_r.
Qed.

Lemma blocks_add {A : Type} (a b n : nat) (l : list A) :
  blocks (a + b) n l = blocks a n l ++ blocks b n (skipn (a * n) l).
Proof.
  revert l. induction a as [|a IH]; intros l; [reflexivity|].
  cbn [plus]. rewrite !blocks_S, IH, skipn_skipn. cbn [app].
  replace (S a * n) with (a * n + n) by lia. reflexivity.
Qed.

Lemma blocks_concat_nested {A : Type} (p n : nat) (gs : list (list A)) :
  Forall (fun g => length g = p * n) gs ->
  blocks (length gs * p) n (concat gs) = concat (map (blocks p n) gs).
Proof.
  induction 1 as [|g gs Hg _ IH]; [reflexivity|].
  cbn [length concat map]. replace (S (length gs) * p)
    with (p + length gs * p) by lia.
  rewrite blocks_add, skipn_app, Hg, Nat.sub_diag.
  rewrite skipn_all2 by lia. cbn [skipn app]. rewrite IH. f_equal.
  unfold blocks. apply map_ext_in. intros i Hi. apply in_seq in Hi.
  apply (block_app_left n i p); [assumption | lia].
Qed.

Section Layout.

Context {E : Env}.

Variable max_length : nat.
Hypothesis devices : 1 <= device_count.
Hypothesis shards : shard_ok.
Hypothesis sequences : generate_ok max_length.
Hypothesis decodes : decode_ok.

Variable prompts : list String.string.
Variable model_params : Params.
Variable vqgan_params : VqParams.
Variable gen_top_k : option Z.
Variables gen_top_p temperature cond_scale : option Q.

Local Abbreviation p := (length prompts).
Local Abbreviation gen n :=
  (generation prompts model_params vqgan_params n gen_top_k
     gen_top_p temperature cond_scale).
Local Abbreviation rimages :=
  (round_images prompts model_params vqgan_params gen_top_k gen_top_p
     temperature cond_scale max_length).
Local Abbreviation dimage :=
  (device_image prompts model_params vqgan_params gen_top_k gen_top_p
     temperature cond_scale max_length).
Local Abbreviation dencoded :=
  (device_encoded prompts model_params gen_top_k gen_top_p
     temperature cond_scale max_length).
Local Abbreviation sequences_of kk :=
  (Nd.data (generate (processor prompts) kk model_params gen_top_k
              gen_top_p temperature cond_scale)).

Lemma sequences_of_length (kk : Key) :
  length (sequences_of kk) = p * max_length.
Proof.
  destruct (sequences prompts kk model_params gen_top_k gen_top_p
              temperature cond_scale) as [Hsh Hwf].
  unfold Nd.wf in Hwf. rewrite Hwf, Hsh. cbn. lia.
Qed.

(** The rows a device's sequences contribute to the round's array. *)
Lemma round_encoded_device (k kj : Key) (j : nat) :
  nth_error (round_keys k) j = Some kj ->
  Nd.mk [p; max_length - 1]
    (block (p * (max_length - 1)) j
       (Nd.data (round_encoded prompts model_params gen_top_k gen_top_p
                   temperature cond_scale max_length k)))
  = dencoded kj.
Proof.
  intros Hj. unfold device_encoded. f_equal.
  cbn [round_encoded round_sequences Nd.data].
  assert (Hlen : length (round_keys k) = device_count) by apply shards.
  replace (device_count * p)
    with (length (map (fun kk => sequences_of kk) (round_keys k)) * p)
    by (now rewrite length_map, Hlen).
  rewrite (blocks_concat_nested p max_length).
  2:{ apply Forall_map, Forall_forall. intros kk _.
      apply sequences_of_length. }
  rewrite map_map, concat_map, concat_concat_map, !map_map.
  rewrite block_of_concat.
  - apply nth_error_nth.
    rewrite (map_nth_error _ _ _ Hj). reflexivity.
  - apply Forall_map, Forall_forall. intros kk _.
    rewrite (length_concat_const (max_length - 1)).
    + now rewrite length_map, blocks_length.
    + apply Forall_map.
      pose proof (blocks_Forall_length p max_length (sequences_of kk)
                    (sequences_of_length kk)) as Hrows.
      revert Hrows. apply Forall_impl. intros row Hrow.
      rewrite length_skipn. lia.
  - rewrite length_map. apply nth_error_Some. congruence.
Qed.

(** X7.  The accumulated list is laid out round by round, within a round
    device by device, within a device prompt by prompt: the image at
    position [t * (devices * prompts) + j * prompts + i] is the one
    decoded for prompt [i] from what device [j] generated with the
    [j]-th key shard of round [t]. *)
Theorem X7_image_layout (n : Z) (s : state) (t j i : nat) (kt kj : Key) :
  nth_error (running_keys (n_iter n) (key s)) t = Some kt ->
  nth_error (shard_prng_key (snd (split kt))) j = Some kj ->
  i < p ->
  nth_error (images (fst (gen n s))) (t * (device_count * p) + j * p + i)
  = Some (dimage kj i).
Proof.
  intros Ht Hj Hi.
  assert (Hjd : j < device_count).
  { rewrite <- (shards (snd (split kt))). apply nth_error_Some. congruence. }
  rewrite (generation_run max_length devices shards sequences decodes).
  cbn [fst images]. rewrite <- Nat.add_assoc.
  rewrite (nth_error_concat_const (device_count * p) t (j * p + i) _
             (rimages kt)).
  2:{ apply Forall_map, Forall_forall. intros k _.
      apply round_images_length. }
  2:{ now apply map_nth_error. }
  2:{ nia. }
  unfold round_images.
  rewrite (map_nth_error _ (j * p + i) (seq 0 (device_count * p))
             (d := j * p + i)).
  2:{ rewrite nth_error_nth' with (d := 0) by (rewrite length_seq; nia).
      rewrite seq_nth by nia. reflexivity. }
  f_equal. unfold device_image. do 2 f_equal.
  rewrite !block_map. f_equal.
  rewrite <- (block_block image_size p j i) by assumption.
  f_equal. unfold round_decoded.
  rewrite block_of_concat.
  - apply nth_error_nth.
    rewrite (map_nth_error
               (fun d => Nd.data (decode_code
                            (Nd.mk [p; max_length - 1] d) vqgan_params))
               j _
               (d := block (p * (max_length - 1)) j
                       (Nd.data (round_encoded prompts model_params
                                   gen_top_k gen_top_p temperature
                                   cond_scale max_length kt)))).
    + now rewrite (round_encoded_device kt kj j Hj).
    + rewrite nth_error_nth' with (d := [])
        by (now rewrite blocks_length).
      now rewrite nth_blocks.
  - apply Forall_map, Forall_forall. intros d _.
    destruct (decodes (Nd.mk [p; max_length - 1] d) vqgan_params p
                (max_length - 1) eq_refl) as [Hsh Hwf].
    unfold Nd.wf in Hwf. rewrite Hwf, Hsh. apply numel_images.
  - now rewrite length_map, blocks_length.
Qed.

End Layout.

(** ** The further properties on the small instance *)

Lemma X1_regroup_positions_witness :
  exists a,
    Nd.slice_stride_col 1 2
      (clip_logits (Env := toy 2) (toy_prompts ++ toy_prompts)
         (images (toy_gallery 2 8)) [tt; tt]) = Ok a /\
    Nd.shape a = [2; 2].
Proof.
  destruct (X1_regroup_positions (E := toy 2) (toy_devices 2 ltac:(lia))
              (toy_clip_ok 2) toy_prompts [tt; tt]
              (images (toy_gallery 2 8)) 2 1 (le_n 2) eq_refl)
    as [a [H1 [H2 _]]].
  exists a. split; [exact H1 | exact H2].
Defined.

Lemma X3_every_image_ranked_once_witness :
  Permutation
    (displayed (emitted (rank_cells (E := toy 1) toy_prompts [tt])
                        (toy_gallery 1 6)))
    (images (toy_gallery 1 6)).
Proof.
  destruct (X3_every_image_ranked_once (E := toy 1)
              (toy_devices 1 ltac:(lia)) (toy_clip_ok 1) (toy_argsort_ok 1)
              toy_prompts [tt] 3 (toy_gallery 1 6)
              (le_n 2) (or_introl (conj eq_refl (le_S 2 2 (le_n 2)))) eq_refl)
    as [positions [_ [_ H]]].
  exact H.
Defined.

Lemma X5_matrix_of_ranks_raises_witness :
  snd (rank_cells (E := toy 2) toy_prompts [tt; tt] (toy_gallery 2 8))
  = Raised TypeError.
Proof.
  destruct (X5_matrix_of_ranks_raises (E := toy 2)
              (toy_devices 2 ltac:(lia)) (toy_clip_ok 2) toy_prompts
              [tt; tt] "sunset over a lake"%string
              ["the Eiffel tower"%string] 2 (toy_gallery 2 8)
              eq_refl (le_n 1) (le_n 2) (le_n 2) eq_refl)
    as [H _].
  now rewrite H.
Defined.

Lemma X6_single_image_per_prompt_raises_witness :
  snd (rank_cells (E := toy 1) toy_prompts [tt] (toy_gallery 1 2))
  = Raised IndexError /\
  displayed (emitted (rank_cells (E := toy 1) toy_prompts [tt])
                     (toy_gallery 1 2)) = [placeholder 0].
Proof.
  destruct (X6_single_image_per_prompt_raises (E := toy 1)
              (toy_devices 1 ltac:(lia)) (toy_clip_ok 1) toy_prompts
              [tt] "sunset over a lake"%string
              ["the Eiffel tower"%string] (toy_gallery 1 2)
              eq_refl (le_n 1) eq_refl eq_refl)
    as [H1 H2].
  split; [now rewrite H1 | exact H2].
Defined.

Lemma X7_image_layout_witness :
  nth_error (images (fst (toy_generation 2 toy_prompts 4 (toy_start 2))))
            (1 * (2 * 2) + 1 * 2 + 1)
  = Some (device_image (E := toy 2) toy_prompts tt tt None None None
            (Some 10%Q) 3 3201%Z 1).
Proof.
  exact (X7_image_layout (E := toy 2) 3 (toy_devices 2 ltac:(lia))
           (toy_shard_ok 2) (toy_generate_ok 2) (toy_decode_ok 2)
           toy_prompts tt tt None None None (Some 10%Q) 4 (toy_start 2)
           1 1 1 15%Z 3201%Z eq_refl eq_refl (le_n 2)).
Defined.

Lemma X8_rerun_continues_keys_witness :
  let twice := bind (E := toy 2) (toy_generation 2 toy_prompts 2)
                 (fun _ => toy_generation 2 toy_prompts 4) in
  key (fst (twice (toy_start 2)))
  = key (fst (toy_generation 2 toy_prompts 6 (toy_start 2))) /\
  length (images (fst (twice (toy_start 2)))) = 2 * (2 * 2).
Proof.
  intros twice.
  destruct (X8_rerun_continues_keys (E := toy 2) 3
              (toy_devices 2 ltac:(lia)) (toy_shard_ok 2)
              (toy_generate_ok 2) (toy_decode_ok 2)
              toy_prompts tt tt None None None (Some 10%Q) 2 4 6
              (toy_start 2) eq_refl) as [_ [_ [H3 [_ H5]]]].
  split; [exact H3 | exact H5].
Defined.

Lemma X9_images_complete_and_shown_witness :
  displayed (emitted (toy_generation 2 toy_prompts 2) (toy_start 2))
  = images (fst (toy_generation 2 toy_prompts 2 (toy_start 2))).
Proof.
  exact (proj2 (X9_images_complete_and_shown (E := toy 2) 3
                  (toy_devices 2 ltac:(lia)) (toy_shard_ok 2)
                  (toy_generate_ok 2) (toy_decode_ok 2)
                  toy_prompts tt tt None None None (Some 10%Q) 2
                  (toy_start 2))).
Defined.
